(** * Babel: number formatting (babel.numbers) and the PO/MO codecs
    (babel.messages.pofile, babel.messages.mofile)

    A shallow embedding of the Python sources and the properties proved
    about them.  Python values are represented as follows.

    - [str] is a list of Unicode code points ([Z]); [len], indexing,
      slicing and the character tests work on code points as in Python.
      String literals are written [u "..."]: the UTF-8 bytes of the Rocq
      literal, decoded.
    - [bytes] is a list of octets ([Z] in 0..255).
    - an exception is a value of [exn]; code that can raise returns a
      [result].  [Unmodelled] marks the places where the embedding stops
      (floating point arithmetic, special decimal values); no property is
      derived from it.
    - a [dict] is an association list in insertion order. *)

From Stdlib Require Import String Ascii.
From Stdlib Require Import ZArith NArith List Bool Lia Permutation.
Import ListNotations.
Local Open Scope Z_scope.

(* ================================================================== *)
(** * Python values and built-ins *)
(* ================================================================== *)

Module Py.

Definition char := Z.
Definition str := list char.
Definition bytes := list Z.

(** ** Exceptions and results *)

Inductive exn : Type :=
| IOError (msg : str)
| StructError
| OverflowError
| ValueError (msg : str)
| TypeError (msg : str)
| NameError (name : str)
| AttributeError (msg : str)
| KeyError
| UnicodeDecodeError
| InvalidOperation
| DecimalOverflow
| ZeroDivisionError
| UnknownCurrencyError (identifier : str)
| UnsupportedNumberingSystemError (msg : str)
| UnknownCurrencyFormatError (msg : str)
| NumberFormatError (message : str)
| Unmodelled (what : string).

Inductive result (A : Type) : Type :=
| Ok (a : A)
| Raise (e : exn).
Arguments Ok {A} a.
Arguments Raise {A} e.

Definition bind {A B} (r : result A) (k : A -> result B) : result B :=
  match r with
  | Ok a => k a
  | Raise e => Raise e
  end.

Declare Scope py_scope.
Delimit Scope py_scope with py.
Notation "x <- r ;; k" := (bind r (fun x => k))
  (at level 61, r at next level, right associativity) : py_scope.
Notation "' p <- r ;; k" := (bind r (fun x => let p := x in k))
  (at level 61, p pattern, r at next level, right associativity) : py_scope.
Notation "r ;;; k" := (bind r (fun _ => k))
  (at level 61, right associativity) : py_scope.
Local Open Scope py_scope.

Fixpoint mapM {A B} (f : A -> result B) (l : list A) : result (list B) :=
  match l with
  | [] => Ok []
  | a :: l' => b <- f a ;; bs <- mapM f l' ;; Ok (b :: bs)
  end.

(** ** Octets and UTF-8 *)

Definition bytes_of_string (s : string) : bytes :=
  map (fun a => Z.of_N (N_of_ascii a)) (list_ascii_of_string s).

Definition is_cont (b : Z) : bool := (128 <=? b) && (b <=? 191).

(** [bytes.decode()] with the default codec (UTF-8, strict): overlong
    forms, surrogates and code points above U+10FFFF are rejected. *)
Fixpoint utf8_decode (b : bytes) : result str :=
  match b with
  | [] => Ok []
  | b0 :: r0 =>
    if b0 <? 128 then s <- utf8_decode r0 ;; Ok (b0 :: s)
    else if (194 <=? b0) && (b0 <=? 223) then
      match r0 with
      | b1 :: r1 =>
        if is_cont b1
        then s <- utf8_decode r1 ;; Ok (((b0 - 192) * 64 + (b1 - 128)) :: s)
        else Raise UnicodeDecodeError
      | _ => Raise UnicodeDecodeError
      end
    else if (224 <=? b0) && (b0 <=? 239) then
      match r0 with
      | b1 :: b2 :: r2 =>
        let c := (b0 - 224) * 4096 + (b1 - 128) * 64 + (b2 - 128) in
        if is_cont b1 && is_cont b2 && (2048 <=? c)
           && negb ((55296 <=? c) && (c <=? 57343))
        then s <- utf8_decode r2 ;; Ok (c :: s)
        else Raise UnicodeDecodeError
      | _ => Raise UnicodeDecodeError
      end
    else if (240 <=? b0) && (b0 <=? 244) then
      match r0 with
      | b1 :: b2 :: b3 :: r3 =>
        let c := (b0 - 240) * 262144 + (b1 - 128) * 4096
                 + (b2 - 128) * 64 + (b3 - 128) in
        if is_cont b1 && is_cont b2 && is_cont b3
           && (65536 <=? c) && (c <=? 1114111)
        then s <- utf8_decode r3 ;; Ok (c :: s)
        else Raise UnicodeDecodeError
      | _ => Raise UnicodeDecodeError
      end
    else Raise UnicodeDecodeError
  end.

(** [str.encode('utf-8')]; lone surrogates cannot be encoded. *)
Definition utf8_encode_char (c : char) : result bytes :=
  if c <? 0 then Raise (ValueError [])
  else if c <? 128 then Ok [c]
  else if c <? 2048 then Ok [192 + c / 64; 128 + c mod 64]
  else if (55296 <=? c) && (c <=? 57343) then Raise (ValueError [])
  else if c <? 65536 then
    Ok [224 + c / 4096; 128 + (c / 64) mod 64; 128 + c mod 64]
  else if c <=? 1114111 then
    Ok [240 + c / 262144; 128 + (c / 4096) mod 64;
        128 + (c / 64) mod 64; 128 + c mod 64]
  else Raise (ValueError []).

Definition utf8_encode (s : str) : result bytes :=
  l <- mapM utf8_encode_char s ;; Ok (concat l).

(** A string literal. *)
Definition u (s : string) : str :=
  match utf8_decode (bytes_of_string s) with
  | Ok l => l
  | Raise _ => []
  end.

(** ** Sequences ([str] and [bytes] share these) *)

Definition len {A} (l : list A) : Z := Z.of_nat (List.length l).

Fixpoint seq_eqb (a b : list Z) : bool :=
  match a, b with
  | [], [] => true
  | x :: a', y :: b' => (x =? y) && seq_eqb a' b'
  | _, _ => false
  end.

(** [s.startswith(p)] *)
Fixpoint startswith (s p : list Z) : bool :=
  match p, s with
  | [], _ => true
  | x :: p', y :: s' => (x =? y) && startswith s' p'
  | _ :: _, [] => false
  end.

(** [needle in hay] *)
Fixpoint contains (hay needle : list Z) : bool :=
  startswith hay needle
  || match hay with
     | [] => false
     | _ :: hay' => contains hay' needle
     end.

(** [s[start:stop]], each bound optional and possibly negative. *)
Definition clamp_index (n i : Z) : Z :=
  if i <? 0 then Z.max 0 (n + i) else Z.min i n.

Definition slice {A} (s : list A) (start stop : option Z) : list A :=
  let n := len s in
  let i := match start with None => 0 | Some i => clamp_index n i end in
  let j := match stop with None => n | Some j => clamp_index n j end in
  firstn (Z.to_nat (j - i)) (skipn (Z.to_nat i) s).

Fixpoint find_from (s needle : list Z) (i : Z) : Z :=
  if startswith s needle then i
  else match s with
       | [] => -1
       | _ :: s' => find_from s' needle (i + 1)
       end.

(** [s.find(needle)] *)
Definition find (s needle : list Z) : Z := find_from s needle 0.

Fixpoint rfind_from (s needle : list Z) (i best : Z) : Z :=
  let best' := if startswith s needle then i else best in
  match s with
  | [] => best'
  | _ :: s' => rfind_from s' needle (i + 1) best'
  end.

(** [s.rfind(needle)] *)
Definition rfind (s needle : list Z) : Z := rfind_from s needle 0 (-1).

Fixpoint replace_go (old new : list Z) (skip : nat) (s : list Z) : list Z :=
  match s with
  | [] => []
  | c :: s' =>
    match skip with
    | S k => replace_go old new k s'
    | O => if startswith s old
           then new ++ replace_go old new (List.length old - 1) s'
           else c :: replace_go old new 0 s'
    end
  end.

(** [s.replace(old, new)]: occurrences are replaced from the left and do
    not overlap; an empty [old] matches before every character and at
    the end. *)
Definition replace (s old new : list Z) : list Z :=
  match old with
  | [] => new ++ flat_map (fun c => c :: new) s
  | _ :: _ => replace_go old new 0 s
  end.

Fixpoint split_go (sep : list Z) (skip : nat) (cur s : list Z)
  : list (list Z) :=
  match s with
  | [] => [rev cur]
  | c :: s' =>
    match skip with
    | S k => split_go sep k cur s'
    | O => if startswith s sep
           then rev cur :: split_go sep (List.length sep - 1) [] s'
           else split_go sep 0 (c :: cur) s'
    end
  end.

(** [s.split(sep)] for an explicit separator. *)
Definition split (s sep : list Z) : result (list (list Z)) :=
  match sep with
  | [] => Raise (ValueError [])
  | _ :: _ => Ok (split_go sep 0 [] s)
  end.

(** [s.partition(sep)] *)
Definition partition (s sep : list Z) : list Z * list Z * list Z :=
  let i := find s sep in
  if i <? 0 then (s, [], [])
  else (slice s None (Some i), sep, slice s (Some (i + len sep)) None).

Fixpoint join (sep : list Z) (parts : list (list Z)) : list Z :=
  match parts with
  | [] => []
  | [p] => p
  | p :: rest => p ++ sep ++ join sep rest
  end.

(** ** Characters *)

(** [str.isspace] on one character. *)
Definition isspace (c : char) : bool :=
  ((9 <=? c) && (c <=? 13)) || ((28 <=? c) && (c <=? 32))
  || (c =? 133) || (c =? 160) || (c =? 5760)
  || ((8192 <=? c) && (c <=? 8202))
  || (c =? 8232) || (c =? 8233) || (c =? 8239) || (c =? 8287)
  || (c =? 12288).

(** The line boundaries of [str.splitlines]. *)
Definition is_linebreak (c : char) : bool :=
  ((10 <=? c) && (c <=? 13)) || ((28 <=? c) && (c <=? 30))
  || (c =? 133) || (c =? 8232) || (c =? 8233).

Fixpoint lstrip_with (p : char -> bool) (s : str) : str :=
  match s with
  | [] => []
  | c :: s' => if p c then lstrip_with p s' else s
  end.

Definition rstrip_with (p : char -> bool) (s : str) : str :=
  rev (lstrip_with p (rev s)).

(** [s.strip()] *)
Definition strip (s : str) : str :=
  rstrip_with isspace (lstrip_with isspace s).

(** [s.rstrip(chars)] *)
Definition rstrip (s chars : str) : str :=
  rstrip_with (fun c => existsb (Z.eqb c) chars) s.

Fixpoint split_ws_go (cur s : str) : list str :=
  match s with
  | [] => match cur with [] => [] | _ :: _ => [rev cur] end
  | c :: s' =>
    if isspace c
    then match cur with
         | [] => split_ws_go [] s'
         | _ :: _ => rev cur :: split_ws_go [] s'
         end
    else split_ws_go (c :: cur) s'
  end.

(** [s.split()]: the words between runs of whitespace. *)
Definition split_ws (s : str) : list str := split_ws_go [] s.

Fixpoint splitlines_go (keepends : bool) (cur s : str) : list str :=
  match s with
  | [] => match cur with [] => [] | _ :: _ => [rev cur] end
  | c :: s' =>
    if c =? 13 then
      match s' with
      | d :: s'' =>
        if d =? 10
        then rev (if keepends then d :: c :: cur else cur)
             :: splitlines_go keepends [] s''
        else rev (if keepends then c :: cur else cur)
             :: splitlines_go keepends [] s'
      | [] => [rev (if keepends then c :: cur else cur)]
      end
    else if is_linebreak c
    then rev (if keepends then c :: cur else cur)
         :: splitlines_go keepends [] s'
    else splitlines_go keepends (c :: cur) s'
  end.

(** [s.splitlines(keepends)] *)
Definition splitlines (s : str) (keepends : bool) : list str :=
  splitlines_go keepends [] s.

(** ** Decimal digits *)

Definition is_digit (c : char) : bool := (48 <=? c) && (c <=? 57).

Fixpoint digits_go (fuel : nat) (n : Z) (acc : str) : str :=
  match fuel with
  | O => acc
  | S f => if n <? 10 then (48 + n) :: acc
           else digits_go f (n / 10) ((48 + n mod 10) :: acc)
  end.

(** The decimal digits of a natural number ([str(n)] for [n >= 0]). *)
Definition digits (n : Z) : str :=
  digits_go (S (Z.to_nat (Z.log2 n))) n [].

(** [str(n)] for an int. *)
Definition str_of_int (n : Z) : str :=
  if n <? 0 then 45 :: digits (- n) else digits n.

Definition digits_value (s : str) : Z :=
  fold_left (fun acc c => acc * 10 + (c - 48)) s 0.

Definition is_ascii (s : str) : bool := forallb (fun c => c <? 128) s.

(** [int(s)] for a string: optional sign and ASCII digits between
    optional whitespace.  Digit-group underscores and non-ASCII digits
    are outside the embedding. *)
Definition int_of_str (s : str) : result Z :=
  if negb (is_ascii s) || contains s [95] then Raise (Unmodelled "int")
  else
    let t := strip s in
    let '(neg, d) :=
      match t with
      | 45 :: d => (true, d)
      | 43 :: d => (false, d)
      | _ => (false, t)
      end in
    match d with
    | [] => Raise (ValueError [])
    | _ :: _ =>
      if forallb is_digit d
      then Ok (if neg then - digits_value d else digits_value d)
      else Raise (ValueError [])
    end.

End Py.

(* ================================================================== *)
(** * decimal.Decimal *)
(* ================================================================== *)

(** Finite decimals under the default context: precision 28,
    ROUND_HALF_EVEN, Emin = -999999, Emax = 999999, no clamping, and the
    traps InvalidOperation, DivisionByZero and Overflow, so that the
    signals Underflow, Subnormal, Inexact, Rounded and Clamped raise
    nothing.  NaN and the infinities are outside the embedding. *)
Module Dec.
Import Py.
Local Open Scope py_scope.

(** The value is [(-1)^dsign * dcoef * 10^dexp]. *)
Record Decimal : Type := mkDec { dsign : bool; dcoef : N; dexp : Z }.

Definition prec : Z := 28.
Definition Emax : Z := 999999.
Definition Emin : Z := -999999.

(** [context.Etiny()] *)
Definition Etiny : Z := Emin - prec + 1.

Definition pow10 (k : Z) : N := Z.to_N (10 ^ k).

(** [len(self._int)]: the number of digits of the coefficient. *)
Definition ndigits (c : N) : Z := len (digits (Z.of_N c)).

Definition is_zero (d : Decimal) : bool := (dcoef d =? 0)%N.

(** [d < 0] *)
Definition is_negative (d : Decimal) : bool := dsign d && negb (is_zero d).

(** [c / 10^k] rounded to nearest, ties to even. *)
Definition div_half_even (c : N) (k : Z) : N :=
  let p := pow10 k in
  let q := (c / p)%N in
  let r := (c mod p)%N in
  if (2 * r <? p)%N then q
  else if (p <? 2 * r)%N then (q + 1)%N
  else if N.even q then q else (q + 1)%N.

(** [self._rescale(e, ROUND_HALF_EVEN)] *)
Definition rescale (d : Decimal) (e : Z) : Decimal :=
  if dexp d >=? e
  then mkDec (dsign d) (dcoef d * pow10 (dexp d - e)) e
  else mkDec (dsign d) (div_half_even (dcoef d) (e - dexp d)) e.

(** [self.adjusted()] *)
Definition adjusted (d : Decimal) : Z := dexp d + ndigits (dcoef d) - 1.

(** The rounding step of [_fix] for a value in the normal range: a
    coefficient of more than [prec] digits is rounded to [prec] digits. *)
Definition round_prec (d : Decimal) : Decimal :=
  let n := ndigits (dcoef d) in
  if n <=? prec then d
  else
    let k := n - prec in
    let c := div_half_even (dcoef d) k in
    if ndigits c >? prec
    then mkDec (dsign d) (c / 10)%N (dexp d + k + 1)
    else mkDec (dsign d) c (dexp d + k).

(** [self._fix(context)].  The exponent of a zero is brought into
    [Etiny .. Emax]; a value whose adjusted exponent exceeds [Emax],
    before or after rounding, raises [Overflow]; a subnormal value
    (adjusted exponent below [Emin]) is rounded to the exponent [Etiny]
    when its exponent is lower; every other value is rounded to the
    precision. *)
Definition fix_ctx (d : Decimal) : result Decimal :=
  if is_zero d
  then Ok (mkDec (dsign d) 0 (Z.min (Z.max (dexp d) Etiny) Emax))
  else if adjusted d >? Emax then Raise DecimalOverflow
  else if adjusted d <? Emin then
    Ok (if dexp d <? Etiny
        then mkDec (dsign d) (div_half_even (dcoef d) (Etiny - dexp d)) Etiny
        else d)
  else
    let r := round_prec d in
    if adjusted r >? Emax then Raise DecimalOverflow else Ok r.

(** [Decimal(n)] for an int. *)
Definition of_int (n : Z) : Decimal := mkDec (n <? 0) (Z.abs_N n) 0.

(** [a * b] *)
Definition mul (a b : Decimal) : result Decimal :=
  fix_ctx (mkDec (xorb (dsign a) (dsign b)) (dcoef a * dcoef b)
             (dexp a + dexp b)).

(** [abs(d)] *)
Definition abs (d : Decimal) : result Decimal :=
  fix_ctx (mkDec false (dcoef d) (dexp d)).

(** [d.quantize(q)], where [q] has exponent [e]. *)
Definition quantize (d : Decimal) (e : Z) : result Decimal :=
  if negb ((Etiny <=? e) && (e <=? Emax)) then Raise InvalidOperation
  else if is_zero d then fix_ctx (mkDec (dsign d) 0 e)
  else if adjusted d >? Emax then Raise InvalidOperation
  else if adjusted d - e + 1 >? prec then Raise InvalidOperation
  else
    let ans := rescale d e in
    if adjusted ans >? Emax then Raise InvalidOperation
    else if ndigits (dcoef ans) >? prec then Raise InvalidOperation
    else fix_ctx ans.

(** [Decimal('0.1') ** n] for an int [n >= 0]: the coefficient is 1 and
    the exponent [-n]; below [Etiny] the power underflows to zero. *)
Definition pow_tenth (n : nat) : Decimal :=
  if - Z.of_nat n <? Etiny then mkDec false 0 Etiny
  else mkDec false 1 (- Z.of_nat n).

Fixpoint strip_zeros (fuel : nat) (coeff : N) (e ideal : Z) : N * Z :=
  match fuel with
  | O => (coeff, e)
  | S f => if (e <? ideal) && (coeff mod 10 =? 0)%N
           then strip_zeros f (coeff / 10)%N (e + 1) ideal
           else (coeff, e)
  end.

(** [a / b] *)
Definition div (a b : Decimal) : result Decimal :=
  let sign := xorb (dsign a) (dsign b) in
  if is_zero b then
    if is_zero a then Raise InvalidOperation
    else Raise ZeroDivisionError
  else if is_zero a then fix_ctx (mkDec sign 0 (dexp a - dexp b))
  else
    let shift := ndigits (dcoef b) - ndigits (dcoef a) + prec + 1 in
    let e := dexp a - dexp b - shift in
    let '(coeff, remainder) :=
      if shift >=? 0
      then N.div_eucl (dcoef a * pow10 shift) (dcoef b)
      else N.div_eucl (dcoef a) (dcoef b * pow10 (- shift)) in
    let '(coeff, e) :=
      if negb (remainder =? 0)%N
      then ((if (coeff mod 5 =? 0)%N then coeff + 1 else coeff)%N, e)
      else strip_zeros (Z.to_nat (ndigits coeff)) coeff e
                       (dexp a - dexp b) in
    fix_ctx (mkDec sign coeff e).

(** The three-way comparison of [d] with an int. *)
Definition compare_int (d : Decimal) (n : Z) : comparison :=
  let v := if dsign d then - Z.of_N (dcoef d) else Z.of_N (dcoef d) in
  if dexp d >=? 0 then Z.compare (v * 10 ^ dexp d) n
  else Z.compare v (n * 10 ^ (- dexp d)).

(** [d >= n] *)
Definition ge_int (d : Decimal) (n : Z) : bool :=
  match compare_int d n with Lt => false | _ => true end.

(** ** Conversion from and to strings *)

Fixpoint span (p : char -> bool) (s : str) : str * str :=
  match s with
  | [] => ([], [])
  | c :: s' => if p c then let '(a, b) := span p s' in (c :: a, b)
               else ([], s)
  end.

Definition is_e (c : char) : bool := (c =? 69) || (c =? 101).

(** The exponent part of a numeric string: empty, or [E], an optional
    sign and at least one digit, up to the end of the string. *)
Definition parse_exponent (s : str) : option Z :=
  match s with
  | [] => Some 0
  | c :: t =>
    if is_e c then
      let '(neg, d) :=
        match t with
        | 45 :: d => (true, d)
        | 43 :: d => (false, d)
        | _ => (false, t)
        end in
      match d with
      | [] => None
      | _ :: _ => if forallb is_digit d
                  then Some (if neg then - digits_value d else digits_value d)
                  else None
      end
    else None
  end.

Definition lower_ascii (c : char) : char :=
  if (65 <=? c) && (c <=? 90) then c + 32 else c.

Definition is_special (s : str) : bool :=
  let t := map lower_ascii s in
  seq_eqb t (u "inf") || seq_eqb t (u "infinity")
  || startswith t (u "nan") || startswith t (u "snan").

(** [Decimal(s)] for a string.  Surrounding whitespace is stripped and
    underscores are removed, as the constructor does; an unparsable
    string raises [InvalidOperation].  Non-ASCII digits and the special
    values are outside the embedding. *)
Definition of_str (s : str) : result Decimal :=
  if negb (is_ascii (strip s)) then Raise (Unmodelled "Decimal")
  else
    let t := replace (strip s) [95] [] in
    let '(neg, t1) :=
      match t with
      | 45 :: r => (true, r)
      | 43 :: r => (false, r)
      | _ => (false, t)
      end in
    if is_special t1 then Raise (Unmodelled "Decimal")
    else
      let '(ip, t2) := span is_digit t1 in
      let '(fp, t3) :=
        match t2 with
        | 46 :: r => span is_digit r
        | _ => ([], t2)
        end in
      match ip ++ fp with
      | [] => Raise InvalidOperation
      | _ :: _ =>
        match parse_exponent t3 with
        | None => Raise InvalidOperation
        | Some e =>
          Ok (mkDec neg (Z.to_N (digits_value (ip ++ fp))) (e - len fp))
        end
      end.

Fixpoint zeros (n : nat) : str :=
  match n with O => [] | S k => 48 :: zeros k end.

(** [f"{d:.{n}f}"]: fixed-point notation with [n] fractional digits. *)
Definition format_f (d : Decimal) (n : nat) : str :=
  let r := rescale d (- Z.of_nat n) in
  let ds := digits (Z.of_N (dcoef r)) in
  let ds := zeros (n + 1 - List.length ds) ++ ds in
  let k := (List.length ds - n)%nat in
  (if dsign r then [45] else [])
  ++ firstn k ds
  ++ match n with O => [] | S _ => 46 :: skipn k ds end.

End Dec.

(* ================================================================== *)
(** * babel.numbers *)
(* ================================================================== *)

Module Numbers.
Import Py.
Import Dec.
Local Open Scope py_scope.

(** ** Data *)

Definition dict (K V : Type) : Type := list (K * V).

Fixpoint lookup {V} (d : dict str V) (k : str) : option V :=
  match d with
  | [] => None
  | (k', v) :: d' => if seq_eqb k k' then Some v else lookup d' k
  end.

(** [d[k]] *)
Definition getitem {V} (d : dict str V) (k : str) : result V :=
  match lookup d k with
  | Some v => Ok v
  | None => Raise KeyError
  end.

(** The numbers the formatting functions accept: an int, a float (held
    by its [repr], through which the code converts it), a Decimal or a
    string. *)
Inductive number : Type :=
| NInt (n : Z)
| NFloat (repr : str)
| NDec (d : Decimal)
| NStr (s : str).

Record NumberPattern : Type := mkNumberPattern {
  pattern : str;
  prefix : str * str;
  suffix : str * str;
  number_pattern : option str;
  grouping : Z * Z;
  int_prec : nat * nat;
  frac_prec : option (nat * nat);
  exp_prec : option Z;
  exp_plus : option bool;
  scale : nat
}.

(** A format taken from the locale data or passed by the caller: a
    pattern string or a compiled pattern. *)
Inductive format : Type :=
| FStr (s : str)
| FPattern (p : NumberPattern).

(** ** The locale data provider

    babel.core and the locale data files are not part of the sources
    embedded here.  The provider is a parameter of every function that
    consults it. *)

Record Symbols : Type := mkSymbols {
  decimal : str;
  group : str;
  plusSign : str;
  minusSign : str;
  exponential : str;
  infinity : str;
  percentSign : str;
  perMille : str
}.

Record Locale : Type := mkLocale {
  territory : option str;
  default_numbering_system : str;
  number_symbols : dict str Symbols;
  decimal_formats : option format;          (* the entry under [None] *)
  currency_formats : dict str format;
  compact_decimal_formats : dict str (dict str (dict str format));
  currencies : dict str (dict str str);
  currency_symbols : dict str str;
  plural_form : number -> str
}.

(** A value held in an entry of the global tables: a string, or
    something else (a date, a boolean, [None]). *)
Inductive value : Type :=
| VStr (s : str)
| VOther.

(** An entry of [territory_currencies].  [list_currencies] unpacks each
    entry into two names, [get_territory_currencies] subscripts it with
    the keys [currency], [from], [to] and [tender]: the entry is a
    sequence or a mapping. *)
Inductive currency_info : Type :=
| InfoSeq (items : list value)
| InfoMap (d : dict str value).

(** [Locale.parse] raises for an identifier that it does not accept. *)
Record Provider : Type := mkProvider {
  Locale_parse : str -> result Locale;
  currency_fractions : dict str (dict str nat);
  territory_currencies : dict str (list currency_info)
}.

(** The [locale] argument: [None], an identifier or a [Locale]. *)
Inductive locale_arg : Type :=
| LNone
| LStr (s : str)
| LObj (l : Locale).

(** Attribute access on the (possibly [None]) locale. *)
Definition deref (l : option Locale) : result Locale :=
  match l with
  | Some l => Ok l
  | None => Raise (AttributeError (u "'NoneType' object has no attribute"))
  end.

(** The names bound in the module namespace of babel.numbers: its
    imports and its own definitions. *)
Definition module_globals : list string :=
  [ "annotations"; "datetime"; "decimal"; "re"; "warnings";
    "TYPE_CHECKING"; "Any"; "cast"; "overload";
    "Locale"; "default_locale"; "get_global"; "LocaleDataDict";
    "LC_NUMERIC"; "UnknownCurrencyError"; "list_currencies";
    "validate_currency"; "is_currency"; "normalize_currency";
    "get_currency_name"; "get_currency_symbol"; "get_currency_precision";
    "get_currency_unit_pattern"; "get_territory_currencies";
    "UnsupportedNumberingSystemError"; "get_decimal_symbol";
    "get_plus_sign_symbol"; "get_minus_sign_symbol";
    "get_exponential_symbol"; "get_group_symbol"; "get_infinity_symbol";
    "format_number"; "get_decimal_precision"; "get_decimal_quantum";
    "format_decimal"; "format_compact_decimal"; "_get_compact_format";
    "UnknownCurrencyFormatError"; "format_currency";
    "_format_currency_long_name"; "format_compact_currency";
    "format_percent"; "format_scientific"; "NumberFormatError";
    "parse_number"; "parse_decimal";
    "_remove_trailing_zeros_after_decimal"; "PREFIX_END"; "NUMBER_TOKEN";
    "PREFIX_PATTERN"; "NUMBER_PATTERN"; "SUFFIX_PATTERN"; "number_re";
    "parse_grouping"; "parse_pattern"; "NumberPattern" ]%string.

(** Evaluating a global name that is neither bound in the module nor a
    built-in raises [NameError]. *)
Definition load_global (name : string) : result unit :=
  if existsb (String.eqb name) module_globals then Ok tt
  else Raise (NameError (u name)).

(** Binding keyword arguments to a signature without [**kwargs]. *)
Fixpoint bind_keywords (parameters keywords : list string) : result unit :=
  match keywords with
  | [] => Ok tt
  | k :: rest =>
    if existsb (String.eqb k) parameters then bind_keywords parameters rest
    else Raise (TypeError (u "unexpected keyword argument '" ++ u k ++ u "'"))
  end.

(** ** The pattern grammar *)

(** [PREFIX_END = '[^0-9@#.,]'] *)
Definition PREFIX_END (c : char) : bool :=
  negb (is_digit c || (c =? 64) || (c =? 35) || (c =? 46) || (c =? 44)).

(** [NUMBER_TOKEN = '[0-9@#.,E+]'] *)
Definition NUMBER_TOKEN (c : char) : bool :=
  is_digit c || (c =? 64) || (c =? 35) || (c =? 46) || (c =? 44)
  || (c =? 69) || (c =? 43).

(** [PREFIX_PATTERN]: a greedy run of quoted literals and of characters
    of [PREFIX_END]; a quote without a closing quote counts as a
    character of [PREFIX_END]. *)
Fixpoint match_prefix (fuel : nat) (s : str) : str * str :=
  match fuel with
  | O => ([], s)
  | S f =>
    match s with
    | [] => ([], [])
    | c :: s' =>
      if (c =? 39) && (0 <=? find s' [39]) then
        let n := Z.to_nat (find s' [39] + 1) in
        let '(m, r) := match_prefix f (skipn n s') in
        (c :: firstn n s' ++ m, r)
      else if PREFIX_END c then
        let '(m, r) := match_prefix f s' in (c :: m, r)
      else ([], s)
    end
  end.

(** One match of [number_re] at the start of [s]: the three groups and
    what follows the match.  The suffix group (any characters) stops at
    a newline. *)
Definition number_re_match (s : str) : str * str * str * str :=
  let '(p, r1) := match_prefix (List.length s) s in
  let '(n, r2) := span NUMBER_TOKEN r1 in
  let '(x, r3) := span (fun c => negb (c =? 10)) r2 in
  (p, n, x, r3).

Fixpoint number_re_split_go (fuel : nat) (s : str) : list str :=
  let '(p, n, x, rest) := number_re_match s in
  [] :: p :: n :: x ::
  match s with
  | [] => [[]]
  | _ :: _ =>
    match fuel with
    | O => []
    | S f => number_re_split_go f rest
    end
  end.

(** [number_re.split(s)]: the text between matches (always empty, the
    matches being adjacent) and the three groups of each match, up to
    the empty match at the end of the string. *)
Definition number_re_split (s : str) : list str :=
  number_re_split_go (List.length s) s.

(** [parse_grouping] *)
Definition parse_grouping (p : str) : Z * Z :=
  let width := len p in
  let g1 := rfind p (u ",") in
  if g1 =? -1 then (1000, 1000)
  else
    let g1 := width - g1 - 1 in
    let g2 := rfind (slice p None (Some (- g1 - 1))) (u ",") in
    if g2 =? -1 then (g1, g1)
    else
      let g2 := width - g1 - g2 - 2 in
      (g1, g2).

(** [NumberPattern.compute_scale] *)
Definition compute_scale (prefix suffix : str * str) : nat :=
  let affixes :=
    join [] [fst prefix; snd prefix; fst suffix; snd suffix] in
  if contains affixes (u "%") then 2%nat
  else if contains affixes (u "‰") then 3%nat
  else 0%nat.

(** [NumberPattern.__init__] *)
Definition NumberPattern_init (pattern : str) (prefix suffix : str * str)
    (grouping : Z * Z) (int_prec : nat * nat)
    (frac_prec : option (nat * nat)) (exp_prec : option Z)
    (exp_plus : option bool) (number_pattern : option str)
  : NumberPattern :=
  mkNumberPattern pattern prefix suffix number_pattern grouping int_prec
                  frac_prec exp_prec exp_plus (compute_scale prefix suffix).

(** The local function [extract_affix] of [parse_pattern]. *)
Definition extract_affix (pattern : str) : str * str :=
  fold_left
    (fun '(prefix, suffix) part =>
       match part with
       | [] => (prefix, suffix)
       | _ :: _ =>
         if (find part (u "0") =? -1) && (find part (u "#") =? -1)
            && (find part (u ",") =? -1) && (find part (u ".") =? -1)
            && (find part (u "E") =? -1)
         then match prefix with
              | _ :: _ => (prefix, part)
              | [] => (part, suffix)
              end
         else (prefix, suffix)
       end)
    (number_re_split pattern) ([], []).

(** Unpacking the result of a [split] into two names. *)
Definition unpack2 (l : list str) : result (str * str) :=
  match l with
  | [a; b] => Ok (a, b)
  | _ => Raise (ValueError (u "wrong number of values to unpack"))
  end.

Definition nlen (s : str) : nat := List.length s.

(** [parse_pattern] on a pattern string. *)
Definition parse_pattern_str (pattern : str) : result NumberPattern :=
  '(positive, negative) <-
    (if contains pattern (u ";")
     then parts <- split pattern (u ";") ;; unpack2 parts
     else Ok (pattern, [])) ;;
  let '(pos_prefix, pos_suffix) := extract_affix positive in
  let '(neg_prefix, neg_suffix) :=
    match negative with
    | _ :: _ => extract_affix negative
    | [] => (u "-" ++ pos_prefix, pos_suffix)
    end in
  let '(_, number, _, _) := number_re_match positive in
  let grouping :=
    if contains number (u ",")
    then let '(integer, _, _) := partition number (u ".") in
         parse_grouping integer
    else (1000, 1000) in
  '(int_prec, fraction_prec) <-
    (if contains number (u ".")
     then
       parts <- split number (u ".") ;;
       '(integer, fraction) <- unpack2 parts ;;
       Ok ((nlen (replace (replace integer (u ",") []) (u "#") []),
            nlen (replace integer (u ",") [])),
           Some (nlen (replace fraction (u "#") []), nlen fraction))
     else
       Ok ((nlen (replace (replace number (u ",") []) (u "#") []),
            nlen (replace number (u ",") [])),
           None)) ;;
  let '(exp_prec, exp_plus) :=
    if contains number (u "E")
    then let exp_part := nth 1 (split_go (u "E") 0 [] number) [] in
         if contains exp_part (u "+")
         then (Some (len exp_part - 1), Some true)
         else (Some (len exp_part), Some false)
    else (None, None) in
  Ok (NumberPattern_init pattern (pos_prefix, neg_prefix)
        (pos_suffix, neg_suffix) grouping int_prec fraction_prec
        exp_prec exp_plus (Some number)).

(** [parse_pattern]: a compiled pattern is returned as it is. *)
Definition parse_pattern (pattern : format) : result NumberPattern :=
  match pattern with
  | FPattern p => Ok p
  | FStr s => parse_pattern_str s
  end.

(** ** Functions over the locale data *)

Section WithProvider.

Variable P : Provider.

(** [if isinstance(locale, str): locale = Locale.parse(locale)] *)
Definition coerce_locale (locale : locale_arg) : result (option Locale) :=
  match locale with
  | LNone => Ok None
  | LStr s => l <- Locale_parse P s ;; Ok (Some l)
  | LObj l => Ok (Some l)
  end.

(** [for currency, _ in ...] on one entry: iterating a sequence gives
    its items and iterating a mapping its keys; the target takes exactly
    two of them. *)
Definition unpack_currency (entry : currency_info) : result value :=
  let items := match entry with
               | InfoSeq items => items
               | InfoMap d => map (fun kv => VStr (fst kv)) d
               end in
  match items with
  | [currency; _] => Ok currency
  | _ => Raise (ValueError (u "wrong number of values to unpack"))
  end.

(** [list_currencies]; the set is held as the list of its members. *)
Definition list_currencies (locale : locale_arg) : result (list value) :=
  match locale with
  | LNone => Ok (map (fun kv => VStr (fst kv)) (currency_fractions P))
  | _ =>
    locale <- coerce_locale locale ;;
    l <- deref locale ;;
    match territory l with
    | None => Ok []
    | Some t =>
      match lookup (territory_currencies P) t with
      | Some entries => mapM unpack_currency entries
      | None => Ok []
      end
    end
  end.

(** [currency == v] for a member of the set. *)
Definition value_is (currency : str) (v : value) : bool :=
  match v with
  | VStr s => seq_eqb currency s
  | VOther => false
  end.

(** [validate_currency] *)
Definition validate_currency (currency : str) (locale : locale_arg)
  : result unit :=
  currencies <- list_currencies locale ;;
  if negb (existsb (value_is currency) currencies)
  then Raise (UnknownCurrencyError currency)
  else Ok tt.

(** [is_currency]: the handler catches [UnknownCurrencyError] and
    nothing else. *)
Definition is_currency (currency : str) (locale : locale_arg)
  : result bool :=
  match validate_currency currency locale with
  | Ok _ => Ok true
  | Raise (UnknownCurrencyError _) => Ok false
  | Raise e => Raise e
  end.

(** [get_currency_name] *)
Definition get_currency_name (currency : str) (count : option number)
    (locale : Locale) : option str :=
  let plural := match count with
                | Some c => plural_form locale c
                | None => u "other"
                end in
  match lookup (currencies locale) currency with
  | Some ((_ :: _) as names) =>
    match lookup names plural with
    | Some ((_ :: _) as n) => Some n
    | _ => lookup names (u "other")
    end
  | _ => Some currency
  end.

(** [get_currency_precision] *)
Definition get_currency_precision (currency : str) : nat :=
  match lookup (currency_fractions P) currency with
  | Some d => match lookup d (u "digits") with
              | Some n => n
              | None => 2%nat
              end
  | None => 2%nat
  end.

(** [get_decimal_quantum] for an int precision. *)
Definition get_decimal_quantum (precision : nat) : Decimal :=
  pow_tenth precision.

(** The conversion at the head of [NumberPattern.apply]: a string goes
    through [Decimal(value)], an int or a float through
    [Decimal(str(value))]. *)
Definition to_decimal (value : number) : result Decimal :=
  match value with
  | NStr s => of_str s
  | NDec d => Ok d
  | NInt n => of_str (str_of_int n)
  | NFloat r => of_str r
  end.

(** Subscripting the fraction precision, which is [None] for a pattern
    without a decimal point. *)
Definition subscript1 (frac_prec : option (nat * nat)) : result nat :=
  match frac_prec with
  | Some fp => Ok (snd fp)
  | None => Raise (TypeError (u "'NoneType' object is not subscriptable"))
  end.

Fixpoint format_int_part_go (rev_value : str) (i g0 : Z)
    (group_symbol res : str) : result str :=
  match rev_value with
  | [] => Ok res
  | digit :: rest =>
    res' <- (if i =? 0 then Ok res
             else if g0 =? 0 then Raise ZeroDivisionError
             else if i mod g0 =? 0 then Ok (group_symbol ++ res)
             else Ok res) ;;
    format_int_part_go rest (i + 1) g0 group_symbol (digit :: res')
  end.

(** [NumberPattern._format_int_part] *)
Definition _format_int_part (value : str) (grouping : Z * Z)
    (group_symbol : str) : result str :=
  format_int_part_go (rev value) 0 (fst grouping) group_symbol [].

(** The lookup of the symbols of a numbering system. *)
Definition get_symbols (locale : Locale) (numbering_system : str)
  : result Symbols :=
  let numbering_system :=
    if seq_eqb numbering_system (u "default")
    then default_numbering_system locale else numbering_system in
  match lookup (number_symbols locale) numbering_system with
  | Some s => Ok s
  | None => Raise (UnsupportedNumberingSystemError numbering_system)
  end.

Definition truthy (s : option str) : bool :=
  match s with
  | Some (_ :: _) => true
  | _ => false
  end.

(** The parameters of [NumberPattern.apply]. *)
Definition apply_parameters : list string :=
  [ "value"; "locale"; "currency"; "currency_digits";
    "decimal_quantization"; "force_frac"; "group_separator";
    "numbering_system" ]%string.

(** [NumberPattern.apply] *)
Definition apply (self : NumberPattern) (value : number)
    (locale : locale_arg) (currency : option str) (currency_digits : bool)
    (decimal_quantization : bool) (force_frac : option (nat * nat))
    (group_separator : bool) (numbering_system : str) : result str :=
  locale <- coerce_locale locale ;;
  value <- to_decimal value ;;
  let is_negative := Dec.is_negative value in
  value <- match scale self with
           | O => Ok value
           | S _ => mul value (of_int (10 ^ Z.of_nat (scale self)))
           end ;;
  let frac_prec :=
    if truthy currency && currency_digits
    then match currency with
         | Some c => Some (get_currency_precision c, get_currency_precision c)
         | None => None
         end
    else match force_frac with
         | Some f => Some f
         | None => frac_prec self
         end in
  value <- (if decimal_quantization
            then p <- subscript1 frac_prec ;;
                 quantize value (dexp (get_decimal_quantum p))
            else Ok value) ;;
  locale <- deref locale ;;
  symbols <- get_symbols locale numbering_system ;;
  value <- Dec.abs value ;;
  p <- subscript1 frac_prec ;;
  let '(a, _, b) := partition (format_f value p) (u ".") in
  a <- (if group_separator
        then _format_int_part a (grouping self) (group symbols)
        else Ok a) ;;
  let b := match b with
           | [] => b
           | _ :: _ =>
             match slice (rstrip b (u "0")) None (Some (Z.of_nat p)) with
             | [] => []
             | (_ :: _) as b' => decimal symbols ++ b'
             end
           end in
  let number := a ++ b in
  Ok ((if is_negative then snd (prefix self) else fst (prefix self))
      ++ number
      ++ (if is_negative then snd (suffix self) else fst (suffix self))).

(** [format_decimal].  The call of [apply] passes the keywords
    [decimal_quantization], [group_separator] and [symbols]. *)
Definition format_decimal (number : number) (format : option format)
    (locale : locale_arg) (decimal_quantization group_separator : bool)
    (numbering_system : str) : result str :=
  locale' <- coerce_locale locale ;;
  number <- match number with
            | NStr s => d <- of_str s ;; Ok (NDec d)
            | _ => Ok number
            end ;;
  format <- match format with
            | Some f => Ok f
            | None => l <- deref locale' ;;
                      match decimal_formats l with
                      | Some f => Ok f
                      | None => Raise KeyError
                      end
            end ;;
  format <- parse_pattern format ;;
  l <- deref locale' ;;
  symbols <- get_symbols l numbering_system ;;
  bind_keywords apply_parameters
    ["decimal_quantization"; "group_separator"; "symbols"]%string ;;;
  apply format number (LObj l) None true decimal_quantization None
        group_separator (u "latn").

(** ** Compact formats *)

(** [abs(number)]; for a Decimal the context applies. *)
Definition number_abs (n : number) : result number :=
  match n with
  | NInt z => Ok (NInt (Z.abs z))
  | NFloat (45 :: r) => Ok (NFloat r)
  | NFloat r => Ok (NFloat r)
  | NDec d => a <- Dec.abs d ;; Ok (NDec a)
  | NStr _ => Raise (TypeError (u "bad operand type for abs(): 'str'"))
  end.

(** [n != 0] is false *)
Definition number_is_zero (n : number) : bool :=
  match n with
  | NInt z => z =? 0
  | NFloat r => match of_str r with
                | Ok d => is_zero d
                | Raise _ => false
                end
  | NDec d => is_zero d
  | NStr _ => false
  end.

(** [n >= t] for an int [t]; for a float only zero is compared, the
    other floats do not reach the comparison. *)
Definition number_ge_int (n : number) (t : Z) : result bool :=
  match n with
  | NInt z => Ok (z >=? t)
  | NDec d => Ok (ge_int d t)
  | NFloat _ => if number_is_zero n then Ok (0 >=? t)
                else Raise (Unmodelled "float comparison")
  | NStr _ => Raise (TypeError (u "'>=' not supported"))
  end.

Fixpoint insert_desc (x : Z * str) (l : list (Z * str)) : list (Z * str) :=
  match l with
  | [] => [x]
  | y :: l' => if fst y >? fst x then y :: insert_desc x l' else x :: l
  end.

(** [sorted(keys, key=int, reverse=True)]: stable, largest first. *)
Definition sorted_thresholds (keys : list str) : result (list (Z * str)) :=
  ks <- mapM (fun k => n <- int_of_str k ;; Ok (n, k)) keys ;;
  Ok (fold_right insert_desc [] ks).

Fixpoint first_threshold (abs_number : number) (patterns : dict str format)
    (ts : list (Z * str)) : result (Decimal * option NumberPattern) :=
  match ts with
  | [] => d <- of_str (u "1") ;; Ok (d, None)
  | (n, threshold) :: rest =>
    ge <- number_ge_int abs_number n ;;
    if ge then
      pattern <- getitem patterns threshold ;;
      pattern <- parse_pattern pattern ;;
      d <- of_str threshold ;;
      Ok (d, Some pattern)
    else first_threshold abs_number patterns rest
  end.

(** [_get_compact_format].  The name [math] is evaluated when the number
    is not zero. *)
Definition _get_compact_format (number : number)
    (compact_format : dict str (dict str format)) (locale : Locale)
    (fraction_digits : nat) : result (Decimal * option NumberPattern) :=
  number <- match number with
            | NStr s => d <- of_str s ;; Ok (NDec d)
            | _ => Ok number
            end ;;
  abs_number <- number_abs number ;;
  log10 <- (if negb (number_is_zero abs_number)
            then load_global "math" ;;;
                 Raise (Unmodelled "math.log10")
            else Ok 0) ;;
  let magnitude := 10 ^ Z.max 0 log10 in
  let plural := plural_form locale abs_number in
  let patterns :=
    match lookup compact_format plural with
    | Some p => p
    | None => match lookup compact_format (u "other") with
              | Some p => p
              | None => []
              end
    end in
  ts <- sorted_thresholds (map fst patterns) ;;
  first_threshold abs_number patterns ts.

(** [number / magnitude] *)
Definition number_div (n : number) (magnitude : Decimal) : result Decimal :=
  match n with
  | NInt z => div (of_int z) magnitude
  | NDec d => div d magnitude
  | _ => Raise (TypeError (u "unsupported operand type(s) for /"))
  end.

(** [format_compact_decimal] *)
Definition format_compact_decimal (number : number) (format_type : str)
    (locale : locale_arg) (fraction_digits : nat) (numbering_system : str)
  : result str :=
  locale' <- coerce_locale locale ;;
  number <- match number with
            | NStr s => d <- of_str s ;; Ok (NDec d)
            | _ => Ok number
            end ;;
  l <- deref locale' ;;
  match lookup (compact_decimal_formats l) format_type with
  | Some ((_ :: _) as compact_format) =>
    '(magnitude, pattern) <-
      _get_compact_format number compact_format l fraction_digits ;;
    match pattern with
    | None => format_decimal number None (LObj l) true true numbering_system
    | Some pattern =>
      q <- number_div number magnitude ;;
      bind_keywords apply_parameters
        ["decimal_quantization"; "force_frac"; "numbering_system"]%string ;;;
      formatted <- apply pattern (NDec q) (LObj l) None true true
                     (Some (fraction_digits, fraction_digits)) true
                     numbering_system ;;
      Ok (strip formatted)
    end
  | _ => Raise (ValueError (u "Unsupported format type: " ++ format_type))
  end.

(** ** Currencies *)

(** [pattern.format(a0, a1)] for the templates made of text and the
    fields [{0}] and [{1}]; other replacement fields are outside the
    embedding. *)
Fixpoint str_format2 (pattern a0 a1 : str) : result str :=
  match pattern with
  | [] => Ok []
  | 123 :: 48 :: 125 :: rest => r <- str_format2 rest a0 a1 ;; Ok (a0 ++ r)
  | 123 :: 49 :: 125 :: rest => r <- str_format2 rest a0 a1 ;; Ok (a1 ++ r)
  | c :: rest =>
    if (c =? 123) || (c =? 125) then Raise (Unmodelled "str.format")
    else r <- str_format2 rest a0 a1 ;; Ok (c :: r)
  end.

(** [_format_currency_long_name] *)
Definition _format_currency_long_name (number : number) (currency : str)
    (format : option format) (locale : option Locale)
    (currency_digits decimal_quantization group_separator : bool)
    (numbering_system : str) : result str :=
  let locale_a := match locale with Some l => LObj l | None => LNone end in
  formatted_number <- format_decimal number format locale_a
                        decimal_quantization group_separator
                        numbering_system ;;
  l <- deref locale ;;
  let currency_name :=
    match get_currency_name currency (Some number) l with
    | Some n => n
    | None => u "None"
    end in
  match lookup (currency_formats l) (u "name_pattern") with
  | Some (FPattern _) =>
    Raise (AttributeError (u "'NumberPattern' object has no attribute 'format'"))
  | Some (FStr pattern) => str_format2 pattern formatted_number currency_name
  | None => str_format2 (u "{0} {1}") formatted_number currency_name
  end.

(** [format_currency] *)
Definition format_currency (number : number) (currency : str)
    (format : option format) (locale : locale_arg) (currency_digits : bool)
    (format_type : str) (decimal_quantization group_separator : bool)
    (numbering_system : str) : result str :=
  locale' <- coerce_locale locale ;;
  if seq_eqb format_type (u "name")
  then _format_currency_long_name number currency format locale'
         currency_digits decimal_quantization group_separator
         numbering_system
  else
    l <- deref locale' ;;
    format <- match lookup (currency_formats l) format_type with
              | Some f => Ok f
              | None =>
                Raise (UnknownCurrencyFormatError
                         (u "'" ++ format_type
                            ++ u "' is not a known currency format type"))
              end ;;
    pattern <- parse_pattern format ;;
    bind_keywords apply_parameters
      ["currency"; "currency_digits"; "decimal_quantization";
       "group_separator"; "numbering_system"]%string ;;;
    apply pattern number (LObj l) (Some currency) currency_digits
          decimal_quantization None group_separator numbering_system.

(** ** Parsing *)

(** [parse_decimal].  The name [string] is rebound to the cleaned text
    before the strict check reads it. *)
Definition parse_decimal (string : str) (locale : locale_arg)
    (strict : bool) (numbering_system : str) : result Decimal :=
  locale' <- coerce_locale locale ;;
  l <- deref locale' ;;
  symbols <- get_symbols l numbering_system ;;
  let numbering_system :=
    if seq_eqb numbering_system (u "default")
    then default_numbering_system l else numbering_system in
  let group_symbol := group symbols in
  let decimal_symbol := decimal symbols in
  let string := replace string group_symbol [] in
  let string := replace string decimal_symbol (u ".") in
  let string := strip string in
  parsed <- match of_str string with
            | Raise InvalidOperation =>
              Raise (NumberFormatError
                       (u "'" ++ string ++ u "' is not a valid decimal number"))
            | r => r
            end ;;
  (if strict then
     formatted <- format_decimal (NDec parsed) None (LObj l) true true
                    numbering_system ;;
     if negb (seq_eqb formatted string) then
       s0 <- format_decimal (NDec parsed) None (LObj l) true true
               numbering_system ;;
       s1 <- format_decimal (NDec parsed) None (LObj l) false true
               numbering_system ;;
       Raise (NumberFormatError
                (u "'" ++ string
                   ++ u "' is not a properly formatted decimal number. Did you mean '"
                   ++ s0 ++ u "'? Or maybe '" ++ s1 ++ u "'?"))
     else Ok tt
   else Ok tt) ;;;
  Ok parsed.

(** ** Compact currency formats *)

(** The attribute [compact_currency_formats] of the locale data, which
    the record [Locale] above does not hold. *)
Variable compact_currency_formats :
  Locale -> dict str (dict str (dict str format)).

(** [format_compact_currency] *)
Definition format_compact_currency (number : number) (currency : str)
    (format_type : str) (locale : locale_arg) (fraction_digits : nat)
    (numbering_system : str) : result str :=
  locale' <- coerce_locale locale ;;
  number <- match number with
            | NStr s => d <- of_str s ;; Ok (NDec d)
            | _ => Ok number
            end ;;
  l <- deref locale' ;;
  match lookup (compact_currency_formats l) format_type with
  | Some ((_ :: _) as compact_format) =>
    '(magnitude, pattern) <-
      _get_compact_format number compact_format l fraction_digits ;;
    match pattern with
    | None => format_currency number currency None (LObj l) true
                (u "standard") true true numbering_system
    | Some pattern =>
      q <- number_div number magnitude ;;
      bind_keywords apply_parameters
        ["currency"; "decimal_quantization"; "force_frac";
         "numbering_system"]%string ;;;
      formatted <- apply pattern (NDec q) (LObj l) (Some currency) true true
                     (Some (fraction_digits, fraction_digits)) true
                     numbering_system ;;
      Ok (strip formatted)
    end
  | _ => Raise (ValueError (u "Unsupported format type: " ++ format_type))
  end.

End WithProvider.

End Numbers.

(* ================================================================== *)
(** * babel.messages.pofile: escaping and wrapping *)
(* ================================================================== *)

Module Pofile.
Import Py.
Local Open Scope py_scope.

(** Rocq string literals have no escape sequences: ["\"] holds two
    backslashes and ["	"] a backslash and a [t].  The double quote is
    written by its code, 34. *)

(** [unescape] *)
Definition unescape (string : str) : str :=
  replace (replace (slice string (Some 1) (Some (-1)))
                   (u "\\") (u "\"))
          [92; 34] [34].

(** [denormalize] *)
Definition denormalize (string : str) : str :=
  let string :=
    if startswith string [34; 34]
    then slice string (Some 3) (Some (-1))
    else string in
  unescape (replace string [34; 10; 34] []).

(** [escape] *)
Definition escape (string : str) : str :=
  [34]
  ++ replace
       (replace
          (replace
             (replace (replace string (u "\") (u "\\")) [9] (u "\t"))
             [13] (u "\r"))
          [10] (u "\n"))
       [34] [92; 34]
  ++ [34].

Fixpoint wrap_chunks (prefix : str) (width : Z) (words chunks : list str)
    (lines : list str) : list str * list str :=
  match words with
  | [] => (chunks, lines)
  | chunk :: rest =>
    match chunks with
    | _ :: _ =>
      if len (prefix ++ join (u " ") (chunks ++ [chunk])) >? width
      then wrap_chunks prefix width rest [chunk]
             (lines ++ [prefix ++ join (u " ") chunks])
      else wrap_chunks prefix width rest (chunks ++ [chunk]) lines
    | [] => wrap_chunks prefix width rest (chunks ++ [chunk]) lines
    end
  end.

(** The body of the loop of [normalize] over the lines of the string. *)
Definition wrap_line (prefix : str) (width : Z) (lines : list str)
    (line : str) : list str :=
  if len (prefix ++ line) >? width then
    let '(chunks, lines) := wrap_chunks prefix width (split_ws line) [] lines in
    match chunks with
    | _ :: _ => lines ++ [prefix ++ join (u " ") chunks]
    | [] => lines
    end
  else lines ++ [prefix ++ line].

(** [normalize]; [width] is an int or [None]. *)
Definition normalize (string prefix : str) (width : option Z) : str :=
  let string :=
    match width with
    | Some w =>
      if negb (w =? 0) && (w >? 0)
      then join [] (fold_left (wrap_line prefix w) (splitlines string true) [])
      else string
    | None => string
    end in
  [34; 34]
  ++ join []
       (map (fun line =>
               [10; 34] ++ slice (escape line) (Some 1) (Some (-1)) ++ [34])
            (splitlines string true)).

End Pofile.

(* ================================================================== *)
(** * babel.messages.mofile *)
(* ================================================================== *)

Module Mofile.
Import Py.
Local Open Scope py_scope.

(** ** Messages and catalogs *)

(** A message id: a string, or the pair (singular, plural). *)
Inductive msgid : Type :=
| Singular (s : str)
| PluralId (singular plural : str).

(** A translation: a string, or the sequence of the plural forms. *)
Inductive msgstr : Type :=
| Single (s : str)
| Forms (l : list str).

(** Modelled from the spec: [Message] of babel/messages/catalog.py, which
    is not among the sources; the fields the MO codec reads. *)
Record Message : Type := mkMessage {
  id : msgid;
  string : msgstr;
  context : option str;
  flags : list str
}.

(** [message.fuzzy] *)
Definition fuzzy (m : Message) : bool :=
  existsb (seq_eqb (u "fuzzy")) (flags m).

(** Modelled from the spec: a [Catalog] is an ordered mapping from
    message identity to message; iterating it yields the messages in
    order. *)
Definition Catalog : Type := list Message.

Definition msgid_eqb (a b : msgid) : bool :=
  match a, b with
  | Singular x, Singular y => seq_eqb x y
  | PluralId x1 x2, PluralId y1 y2 => seq_eqb x1 y1 && seq_eqb x2 y2
  | _, _ => false
  end.

(** Modelled from the spec: [Catalog.add(id, string)] enters the message
    under its identity, in place when the identity is present and at the
    end otherwise. *)
Fixpoint Catalog_add (c : Catalog) (i : msgid) (s : msgstr) : Catalog :=
  match c with
  | [] => [mkMessage i s None []]
  | m :: c' =>
    if msgid_eqb (id m) i
    then mkMessage i s (context m) (flags m) :: c'
    else m :: Catalog_add c' i s
  end.

Definition LE_MAGIC : Z := 2500072158.
Definition BE_MAGIC : Z := 3725722773.

(** ** struct and array *)

Definition u32_le (b0 b1 b2 b3 : Z) : Z :=
  b0 + 256 * b1 + 65536 * b2 + 16777216 * b3.

Fixpoint unpack_words (le : bool) (b : bytes) : list Z :=
  match b with
  | b0 :: b1 :: b2 :: b3 :: rest =>
    (if le then u32_le b0 b1 b2 b3 else u32_le b3 b2 b1 b0)
    :: unpack_words le rest
  | _ => []
  end.

(** [struct.unpack] with a format of [n] unsigned 32-bit integers, little
    endian ([<]) or big endian ([>]): the buffer must have exactly
    [4 n] octets. *)
Definition unpack (le : bool) (n : nat) (b : bytes) : result (list Z) :=
  if Nat.eqb (List.length b) (4 * n) then Ok (unpack_words le b)
  else Raise StructError.

Definition pack_u32_le (v : Z) : bytes :=
  [v mod 256; (v / 256) mod 256; (v / 65536) mod 256;
   (v / 16777216) mod 256].

(** One item of [struct.pack] in native mode on a little-endian
    machine: [I] is an unsigned and [i] a signed 32-bit integer. *)
Definition pack_I (v : Z) : result bytes :=
  if (0 <=? v) && (v <? 4294967296) then Ok (pack_u32_le v)
  else Raise StructError.

Definition pack_i (v : Z) : result bytes :=
  if (-2147483648 <=? v) && (v <? 2147483648)
  then Ok (pack_u32_le (v mod 4294967296))
  else Raise StructError.

(** [array.array("I", l).tobytes()] *)
Definition array_I_tobytes (l : list Z) : result bytes :=
  bs <- mapM (fun v => if (0 <=? v) && (v <? 4294967296)
                       then Ok (pack_u32_le v)
                       else Raise OverflowError) l ;;
  Ok (concat bs).

(** ** read_mo *)

Definition get2 (l : list Z) : Z * Z :=
  (nth 0 l 0, nth 1 l 0).

(** The body of the loop of [read_mo] for one index entry. *)
Definition read_entry (buf : bytes) (le : bool) (masteridx transidx : Z)
    (catalog : Catalog) : result Catalog :=
  let buflen := len buf in
  m <- unpack le 2 (slice buf (Some masteridx) (Some (masteridx + 8))) ;;
  let '(mlen, moff) := get2 m in
  let mend := moff + mlen in
  t <- unpack le 2 (slice buf (Some transidx) (Some (transidx + 8))) ;;
  let '(tlen, toff) := get2 t in
  let tend := toff + tlen in
  if (mend >? buflen) || (tend >? buflen)
  then Raise (IOError (u "File is corrupt"))
  else
    let msg := slice buf (Some moff) (Some mend) in
    let tmsg := slice buf (Some toff) (Some tend) in
    if contains msg [0] then
      match split_go [0] 0 [] msg with
      | [msgid1; msgid2] =>
        let tmsg := split_go [0] 0 [] tmsg in
        if len tmsg >? 1 then
          i1 <- utf8_decode msgid1 ;;
          i2 <- utf8_decode msgid2 ;;
          ts <- mapM utf8_decode tmsg ;;
          Ok (Catalog_add catalog (PluralId i1 i2) (Forms ts))
        else
          i1 <- utf8_decode msgid1 ;;
          i2 <- utf8_decode msgid2 ;;
          t0 <- utf8_decode (nth 0 tmsg []) ;;
          Ok (Catalog_add catalog (PluralId i1 i2) (Single t0))
      | _ => Raise (ValueError (u "wrong number of values to unpack"))
      end
    else
      i <- utf8_decode msg ;;
      t <- utf8_decode tmsg ;;
      Ok (Catalog_add catalog (Singular i) (Single t)).

(** The loop [for i in range(msgcount)]. *)
Fixpoint read_entries (buf : bytes) (le : bool) (count : nat)
    (masteridx transidx : Z) (catalog : Catalog) : result Catalog :=
  match count with
  | O => Ok catalog
  | S n =>
    catalog <- read_entry buf le masteridx transidx catalog ;;
    read_entries buf le n (masteridx + 8) (transidx + 8) catalog
  end.

(** [read_mo], on the content of the file. *)
Definition read_mo (buf : bytes) : result Catalog :=
  let catalog : Catalog := [] in
  m <- unpack true 1 (slice buf None (Some 4)) ;;
  let magic := nth 0 m 0 in
  le <- (if magic =? LE_MAGIC then Ok true
         else if magic =? BE_MAGIC then Ok false
         else Raise (IOError (u "Invalid magic number"))) ;;
  h <- unpack le 4 (slice buf (Some 4) (Some 20)) ;;
  let version := nth 0 h 0 in
  let msgcount := nth 1 h 0 in
  let masteridx := nth 2 h 0 in
  let transidx := nth 3 h 0 in
  if negb ((version =? 0) || (version =? 1))
  then Raise (IOError (u "Unknown MO file version"))
  else read_entries buf le (Z.to_nat msgcount) masteridx transidx catalog.

(** ** write_mo *)

Section Write.

(** The order of [list.sort] on messages is defined with [Message], in
    babel/messages/catalog.py; it is a parameter here. *)
Variable message_sort : list Message -> list Message.

Definition id_truthy (i : msgid) : bool :=
  match i with
  | Singular [] => false
  | _ => true
  end.

Definition string_truthy (s : msgstr) : bool :=
  match s with
  | Single [] => false
  | Forms [] => false
  | _ => true
  end.

(** The key blob of a message, as the loop of [write_mo] computes it. *)
Definition encode_id (m : Message) : result bytes :=
  match context m with
  | Some ((_ :: _) as c) =>
    match id m with
    | Singular i => utf8_encode (c ++ [4] ++ i)
    | PluralId _ _ =>
      Raise (TypeError (u "can only concatenate str (not 'tuple') to str"))
    end
  | _ =>
    match id m with
    | Singular i => utf8_encode i
    | PluralId _ _ =>
      Raise (AttributeError (u "'tuple' object has no attribute 'encode'"))
    end
  end.

(** The value blob of a message. *)
Definition encode_string (m : Message) : result bytes :=
  match string m with
  | Single s => utf8_encode s
  | Forms l => bs <- mapM utf8_encode l ;; Ok (join [0] bs)
  end.

(** The first loop of [write_mo]: the state is [(ids, strs, offsets)]. *)
Fixpoint collect (use_fuzzy : bool) (messages : list Message)
    (ids strs : bytes) (offsets : list (Z * Z * Z * Z))
  : result (bytes * bytes * list (Z * Z * Z * Z)) :=
  match messages with
  | [] => Ok (ids, strs, offsets)
  | message :: rest =>
    if negb (id_truthy (id message))
       || (negb use_fuzzy && fuzzy message)
       || negb (string_truthy (string message))
    then collect use_fuzzy rest ids strs offsets
    else
      i <- encode_id message ;;
      s <- encode_string message ;;
      collect use_fuzzy rest (ids ++ i ++ [0]) (strs ++ s ++ [0])
              (offsets ++ [(len ids, len i, len strs, len s)])
  end.

(** [write_mo]: the octets written to the file. *)
Definition write_mo (catalog : Catalog) (use_fuzzy : bool) : result bytes :=
  let messages := message_sort catalog in
  '(ids, strs, offsets) <- collect use_fuzzy messages [] [] [] ;;
  let keystart := 7 * 4 + 16 * len offsets in
  let valuestart := keystart + len ids in
  let koffsets :=
    flat_map (fun '(o0, o1, o2, o3) => [o0 + keystart; o1]) offsets in
  let voffsets :=
    flat_map (fun '(o0, o1, o2, o3) => [o2 + valuestart; o3]) offsets in
  let offsets := koffsets ++ voffsets in
  h0 <- pack_I LE_MAGIC ;;
  h1 <- pack_i 0 ;;
  h2 <- pack_i (len offsets / 4) ;;
  h3 <- pack_i (7 * 4) ;;
  h4 <- pack_i (7 * 4 + len offsets / 2) ;;
  h5 <- pack_i 0 ;;
  h6 <- pack_i 0 ;;
  table <- array_I_tobytes offsets ;;
  Ok (h0 ++ h1 ++ h2 ++ h3 ++ h4 ++ h5 ++ h6 ++ table ++ ids ++ strs).

End Write.

End Mofile.

(* ================================================================== *)
(** * babel.util *)
(* ================================================================== *)

Module Util.
Import Py.
Local Open Scope py_scope.

Section Distinct.

(** The items and their equality ([==] and the hash agree with it). *)
Variable A : Type.
Variable eqb : A -> A -> bool.

Fixpoint distinct_go (seen l : list A) : list A :=
  match l with
  | [] => []
  | item :: rest =>
    if existsb (eqb item) seen then distinct_go seen rest
    else item :: distinct_go (item :: seen) rest
  end.

(** [distinct]: the items the generator yields, in order. *)
Definition distinct (iterable : list A) : list A := distinct_go [] iterable.

End Distinct.

(** [s.endswith(p)] *)
Definition endswith (s p : str) : bool := startswith (rev s) (rev p).

Section Pathmatch.

(** [os.path.sep] and [fnmatch.fnmatch]. *)
Variable sep : str.
Variable fnmatch : str -> str -> bool.

(** The loop of [pathmatch] over the parts of the pattern; [n] is
    [len(parts)]. *)
Fixpoint pathmatch_parts (n : Z) (parts : list str) (idx : Z)
    (filename : str) : bool :=
  match parts with
  | [] => true
  | part :: rest =>
    if idx =? 0 then
      if negb (startswith filename part) then false
      else pathmatch_parts n rest (idx + 1)
             (slice filename (Some (len part)) None)
    else if idx =? n - 1 then
      if negb (endswith filename part) then false
      else pathmatch_parts n rest (idx + 1)
             (slice filename None (Some (- len part)))
    else
      let pos := find filename part in
      if pos <? 0 then false
      else pathmatch_parts n rest (idx + 1)
             (slice filename (Some (pos + len part)) None)
  end.

(** [pathmatch] *)
Definition pathmatch (pattern filename : str) : bool :=
  let pattern := replace pattern sep (u "/") in
  let filename := replace filename sep (u "/") in
  let pattern :=
    if startswith pattern (u "^") then slice pattern (Some 1) None
    else u "*/" ++ pattern in
  if contains pattern (u "**") then
    let parts := split_go (u "**") 0 [] pattern in
    pathmatch_parts (len parts) parts 0 filename
  else fnmatch filename pattern.

End Pathmatch.

End Util.

(* ================================================================== *)
(** * babel.messages.pofile: the reader *)
(* ================================================================== *)

Module PofileReader.
Import Py.
Import Mofile.
Local Open Scope py_scope.

(** The attributes that the class [PoFileParser] defines. *)
Definition PoFileParser_class : list String.string :=
  [ "_keywords"; "__init__"; "_add_message"; "parse" ]%string.

(** The attributes that [__init__] has set on the instance when it calls
    [self._reset_message_state()]. *)
Definition PoFileParser_instance : list String.string :=
  [ "catalog"; "ignore_obsolete"; "counter"; "offset"; "abort_invalid" ]%string.

(** Looking up an attribute on a parser instance. *)
Definition getattr (name : String.string) : result unit :=
  if existsb (String.eqb name) (PoFileParser_instance ++ PoFileParser_class)
  then Ok tt
  else Raise (AttributeError
                (u "'PoFileParser' object has no attribute '" ++ u name
                   ++ u "'")).

(** [PoFileParser.__init__] *)
Definition PoFileParser_init : result unit :=
  getattr "_reset_message_state".

(** [PoFileParser.parse], on the lines of the file. *)
Definition PoFileParser_parse (lines : list str) : result unit :=
  getattr "_reset_message_state" ;;;
  mapM (fun line =>
          match strip line with
          | _ :: _ => getattr "_process_line"
          | [] => getattr "_flush_message"
          end) lines ;;;
  getattr "_flush_message".

(** [read_po], on the lines of the file; the catalog is created empty. *)
Definition read_po (lines : list str) (ignore_obsolete abort_invalid : bool)
  : result Catalog :=
  let catalog : Catalog := [] in
  PoFileParser_init ;;;
  PoFileParser_parse lines ;;;
  Ok catalog.

End PofileReader.

(* ================================================================== *)
(** * Sample locale data *)
(* ================================================================== *)

(** Modelled from the spec: the locale data provider is an external
    collaborator (babel.core and the CLDR data files are not among the
    sources).  The sample holds the entries of en_US and de that the
    examples of the documentation use: the symbols, the decimal pattern
    [#,##0.###], the standard currency pattern, the short compact
    patterns of en_US and the fraction digits of JPY and USD.
    [Locale.parse] raises for an identifier outside the sample.  In the
    table of the currencies of the territories, the entry of US is a
    mapping with the keys that [get_territory_currencies] reads and the
    entry of JP a pair, as [list_currencies] unpacks it. *)
Module Sample.
Import Py.
Import Numbers.

Definition symbols_en : Symbols :=
  mkSymbols (u ".") (u ",") (u "+") (u "-") (u "E") (u "∞") (u "%") (u "‰").

Definition symbols_de : Symbols :=
  mkSymbols (u ",") (u ".") (u "+") (u "-") (u "E") (u "∞") (u "%") (u "‰").

Definition plural_en (n : number) : str :=
  match n with
  | NInt 1 => u "one"
  | _ => u "other"
  end.

Definition compact_short_en : dict str (dict str format) :=
  [ (u "one",   [ (u "1000", FStr (u "0K")); (u "10000", FStr (u "00K"));
                  (u "100000", FStr (u "000K")); (u "1000000", FStr (u "0M")) ]);
    (u "other", [ (u "1000", FStr (u "0K")); (u "10000", FStr (u "00K"));
                  (u "100000", FStr (u "000K")); (u "1000000", FStr (u "0M")) ]) ].

Definition en_US : Locale :=
  mkLocale (Some (u "US")) (u "latn") [(u "latn", symbols_en)]
           (Some (FStr (u "#,##0.###")))
           [(u "standard", FStr (u "¤#,##0.00"))]
           [(u "short", compact_short_en)]
           [(u "JPY", [(u "one", u "Japanese yen"); (u "other", u "Japanese yen")])]
           [(u "JPY", u "¥"); (u "USD", u "$")]
           plural_en.

Definition de : Locale :=
  mkLocale None (u "latn") [(u "latn", symbols_de)]
           (Some (FStr (u "#,##0.###")))
           [(u "standard", FStr (u "#,##0.00 ¤"))]
           []
           []
           [(u "JPY", u "¥"); (u "USD", u "$")]
           plural_en.

Definition ja_JP : Locale :=
  mkLocale (Some (u "JP")) (u "latn") [(u "latn", symbols_en)]
           (Some (FStr (u "#,##0.###")))
           [(u "standard", FStr (u "¤#,##0.00"))]
           []
           []
           [(u "JPY", u "¥")]
           plural_en.

Definition provider : Provider :=
  mkProvider
    (fun s => if seq_eqb s (u "de") then Ok de
              else if seq_eqb s (u "en_US") then Ok en_US
              else Raise (ValueError (u "unknown locale")))
    [ (u "JPY", [(u "digits", 0%nat)]); (u "USD", [(u "digits", 2%nat)]);
      (u "EUR", [(u "digits", 2%nat)]) ]
    [ (u "US", [InfoMap [(u "currency", VStr (u "USD"));
                         (u "from", VOther); (u "to", VOther);
                         (u "tender", VOther)]]);
      (u "JP", [InfoSeq [VStr (u "JPY"); VOther]]) ].

End Sample.

(* ================================================================== *)
(** * Definitions used by the statements *)
(* ================================================================== *)

Import Py.
Local Open Scope py_scope.
Import Dec.
Import Numbers.
Import Pofile.
Import Mofile.

(** The pattern with another scale. *)
Definition with_scale (p : NumberPattern) (s : nat) : NumberPattern :=
  mkNumberPattern (pattern p) (prefix p) (suffix p) (number_pattern p)
                  (grouping p) (int_prec p) (frac_prec p) (exp_prec p)
                  (exp_plus p) s.


(** The four affixes of a compiled pattern. *)
Definition affixes (p : NumberPattern) : list str :=
  [fst (prefix p); snd (prefix p); fst (suffix p); snd (suffix p)].


(** The fraction precision that [apply] chooses: the digits of the
    currency, else [force_frac], else the precision of the pattern. *)
Definition effective_frac_prec (P : Provider) (self : NumberPattern)
    (currency : option str) (currency_digits : bool)
    (force_frac : option (nat * nat)) : option (nat * nat) :=
  if truthy currency && currency_digits
  then match currency with
       | Some c => Some (get_currency_precision P c, get_currency_precision P c)
       | None => None
       end
  else match force_frac with
       | Some f => Some f
       | None => frac_prec self
       end.

(** The quantization step of [apply] on the scaled value. *)
Definition quantization_step (decimal_quantization : bool)
    (frac_prec : option (nat * nat)) (value : Decimal) : result Decimal :=
  if decimal_quantization
  then p <- subscript1 frac_prec ;;
       quantize value (dexp (get_decimal_quantum p))
  else Ok value.

(** What [apply] does with the value after the quantization step: the
    symbols of the locale, the absolute value in fixed-point notation,
    the grouping of the integer part, the fraction without its trailing
    zeros and the affixes for the sign taken before the scaling. *)
Definition render (self : NumberPattern) (locale : option Locale)
    (is_negative : bool) (value : Decimal) (frac_prec : option (nat * nat))
    (group_separator : bool) (numbering_system : str) : result str :=
  locale <- deref locale ;;
  symbols <- get_symbols locale numbering_system ;;
  value <- Dec.abs value ;;
  p <- subscript1 frac_prec ;;
  let '(a, _, b) := partition (format_f value p) (u ".") in
  a <- (if group_separator
        then _format_int_part a (grouping self) (group symbols)
        else Ok a) ;;
  let b := match b with
           | [] => b
           | _ :: _ =>
             match slice (rstrip b (u "0")) None (Some (Z.of_nat p)) with
             | [] => []
             | (_ :: _) as b' => decimal symbols ++ b'
             end
           end in
  let number := a ++ b in
  Ok ((if is_negative then snd (prefix self) else fst (prefix self))
      ++ number
      ++ (if is_negative then snd (suffix self) else fst (suffix self))).

(** The header as [read_mo] decodes it: the byte order that the magic
    number selects and the four words that follow it. *)
Definition read_header (buf : bytes) : result (bool * list Z) :=
  m <- unpack true 1 (slice buf None (Some 4)) ;;
  le <- (if nth 0 m 0 =? LE_MAGIC then Ok true
         else if nth 0 m 0 =? BE_MAGIC then Ok false
         else Raise (IOError (u "Invalid magic number"))) ;;
  h <- unpack le 4 (slice buf (Some 4) (Some 20)) ;;
  Ok (le, h).

(** The magic number can be read and is neither constant. *)
Definition bad_magic (buf : bytes) : Prop :=
  exists magic,
    unpack true 1 (slice buf None (Some 4)) = Ok [magic]
    /\ magic <> LE_MAGIC /\ magic <> BE_MAGIC.

(** The header can be read and the version is neither 0 nor 1. *)
Definition bad_version (buf : bytes) : Prop :=
  exists le h,
    read_header buf = Ok (le, h)
    /\ nth 0 h 0 <> 0 /\ nth 0 h 0 <> 1.

(** The header is accepted, the reader gets through the first [k] index
    entries, and the offset plus length that it computes for entry [k],
    of the key or of the translation, exceeds the length of the buffer. *)
Definition corrupt_entry (buf : bytes) : Prop :=
  exists le h k catalog m t,
    read_header buf = Ok (le, h)
    /\ (nth 0 h 0 = 0 \/ nth 0 h 0 = 1)
    /\ Z.of_nat k < nth 1 h 0
    /\ read_entries buf le k (nth 2 h 0) (nth 3 h 0) [] = Ok catalog
    /\ unpack le 2 (slice buf (Some (nth 2 h 0 + 8 * Z.of_nat k))
                          (Some (nth 2 h 0 + 8 * Z.of_nat k + 8))) = Ok m
    /\ unpack le 2 (slice buf (Some (nth 3 h 0 + 8 * Z.of_nat k))
                          (Some (nth 3 h 0 + 8 * Z.of_nat k + 8))) = Ok t
    /\ (snd (get2 m) + fst (get2 m) > len buf
        \/ snd (get2 t) + fst (get2 t) > len buf).

(** A buffer of each kind: four zero octets; the little-endian magic
    number followed by version 2; and a file of one message whose index
    entry gives a length of 44 at offset 64, in a buffer of 44 octets. *)
Definition buf_bad_magic : bytes := [0; 0; 0; 0].

Definition buf_bad_version : bytes :=
  [222; 18; 4; 149] ++ [2; 0; 0; 0] ++ [0; 0; 0; 0]
  ++ [28; 0; 0; 0] ++ [28; 0; 0; 0].

Definition buf_corrupt : bytes :=
  [222; 18; 4; 149] ++ [0; 0; 0; 0] ++ [1; 0; 0; 0]
  ++ [28; 0; 0; 0] ++ [36; 0; 0; 0] ++ [0; 0; 0; 0] ++ [0; 0; 0; 0]
  ++ [44; 0; 0; 0] ++ [64; 0; 0; 0] ++ [0; 0; 0; 0] ++ [44; 0; 0; 0].

(** Two buffers that are too short: the header of one message with the
    key table at octet 28 and the value table at octet 1000, followed by
    the key entry (44, 64) and nothing else, 36 octets; and the magic
    number, version 2 and 11 more octets, 19 in all. *)
Definition buf_short_index : bytes :=
  [222; 18; 4; 149] ++ [0; 0; 0; 0] ++ [1; 0; 0; 0]
  ++ [28; 0; 0; 0] ++ [232; 3; 0; 0] ++ [0; 0; 0; 0] ++ [0; 0; 0; 0]
  ++ [44; 0; 0; 0] ++ [64; 0; 0; 0].

Definition buf_short_header : bytes :=
  [222; 18; 4; 149] ++ [2; 0; 0; 0] ++ [0; 0; 0; 0]
  ++ [28; 0; 0; 0] ++ [28; 0; 0].

Definition message_foo : Message :=
  mkMessage (Singular (u "foo")) (Single (u "Voh")) None [].

Definition message_bar : Message :=
  mkMessage (PluralId (u "bar") (u "baz")) (Forms [u "Bahr"; u "Batz"])
            None [].

Definition symbols_keyword_error : exn :=
  TypeError (u "unexpected keyword argument 'symbols'").

(** The value of [apply] after the scaling step. *)
Definition scaled_value (self : NumberPattern) (d : Decimal)
  : result Decimal :=
  match scale self with
  | O => Ok d
  | S _ => mul d (of_int (10 ^ Z.of_nat (scale self)))
  end.

(** The messages that the first loop of [write_mo] does not skip. *)
Definition written (use_fuzzy : bool) (m : Message) : bool :=
  negb (negb (id_truthy (id m))
        || (negb use_fuzzy && fuzzy m)
        || negb (string_truthy (string m))).

(** The test of [extract_affix] on one part of the split pattern. *)
Definition is_affix (part : str) : bool :=
  match part with
  | [] => false
  | _ :: _ =>
    (find part (u "0") =? -1) && (find part (u "#") =? -1)
    && (find part (u ",") =? -1) && (find part (u ".") =? -1)
    && (find part (u "E") =? -1)
  end.

(** A character of the number part that cannot start a prefix:
    a digit, [@], [#], [.] or [,]. *)
Definition number_start (c : char) : bool := negb (PREFIX_END c).

(** What [escape] writes for one character: a backslash doubled, the
    letter forms of tab, carriage return and line feed, and a quote
    behind a backslash. *)
Definition escape_char (c : char) : str :=
  if c =? 92 then [92; 92]
  else if c =? 9 then [92; 116]
  else if c =? 13 then [92; 114]
  else if c =? 10 then [92; 110]
  else if c =? 34 then [92; 34]
  else [c].

(** The same after the first replacement of [unescape]. *)
Definition half_unescaped_char (c : char) : str :=
  if c =? 92 then [92]
  else if c =? 9 then [92; 116]
  else if c =? 13 then [92; 114]
  else if c =? 10 then [92; 110]
  else if c =? 34 then [92; 34]
  else [c].

(** Tab, carriage return or line feed. *)
Definition is_control (c : char) : bool :=
  (c =? 9) || (c =? 13) || (c =? 10).

(** What [unescape] gives back for the escaped form of one character. *)
Definition unescaped_char (c : char) : str :=
  if c =? 9 then [92; 116]
  else if c =? 13 then [92; 114]
  else if c =? 10 then [92; 110]
  else [c].

(** A character that [escape] writes without a line break in it and
    that [unescape] gives back: no line boundary of [splitlines], no tab. *)
Definition inline_char (c : char) : bool :=
  negb (is_linebreak c) && negb (c =? 9).

(** A character that [escape] writes as it is. *)
Definition plain_char (c : char) : bool :=
  inline_char c && negb (c =? 92) && negb (c =? 34).

(** [normalize] does not wrap: no width, a width that is not positive, or
    no prefix and a string that fits. *)
Definition no_wrapping (prefix string : str) (width : option Z) : Prop :=
  match width with
  | None => True
  | Some w => w <= 0 \/ (prefix = [] /\ len string <= w)
  end.

(** The id of the message is a pair (singular, plural). *)
Definition is_plural (m : Message) : bool :=
  match id m with
  | PluralId _ _ => true
  | Singular _ => false
  end.

(* ================================================================== *)
(** * Properties *)
(* ================================================================== *)

(** ** Lists of characters *)

Lemma startswith_nil (s : list Z) : startswith s [] = true.
Proof. destruct s; reflexivity. Qed.

Lemma contains_char (x : Z) (s : list Z) :
  contains s [x] = existsb (Z.eqb x) s.
Proof.
  induction s as [|c s IH]; simpl; [reflexivity|].
  rewrite IH, startswith_nil, andb_true_r. reflexivity.
Qed.


(** ** Digits and the precision of the context *)

Lemma digits_go_length (fuel : nat) :
  forall (n : Z) (acc : str), 0 <= n ->
  exists m : nat,
    List.length (digits_go fuel n acc) = (List.length acc + m)%nat
    /\ ((m <= 1)%nat \/ 10 ^ (Z.of_nat m - 1) <= n).
Proof.
  induction fuel as [|f IH]; intros n acc Hn; simpl.
  - exists 0%nat. split; [lia | left; lia].
  - destruct (n <? 10) eqn:E.
    + exists 1%nat. simpl. split; [lia | left; lia].
    + apply Z.ltb_ge in E.
      destruct (IH (n / 10) ((48 + n mod 10) :: acc)) as [m [Hl Hm]].
      { apply Z.div_pos; lia. }
      exists (S m). split; [simpl in Hl; lia|].
      right.
      destruct Hm as [Hm | Hm].
      * destruct m as [|[|m]]; try lia; simpl; lia.
      * replace (Z.of_nat (S m) - 1) with (Z.succ (Z.of_nat m - 1)) by lia.
        destruct m as [|m]; [simpl; lia|].
        rewrite Z.pow_succ_r by lia.
        pose proof (Z.mul_div_le n 10 ltac:(lia)). lia.
Qed.

Lemma ndigits_lower (c : N) :
  1 < Dec.ndigits c -> 10 ^ (Dec.ndigits c - 1) <= Z.of_N c.
Proof.
  unfold Dec.ndigits, len, digits. intros H.
  destruct (digits_go_length (S (Z.to_nat (Z.log2 (Z.of_N c)))) (Z.of_N c) [])
    as [m [Hl Hm]]; [lia|].
  rewrite Hl in *. simpl in *. destruct Hm as [Hm|Hm]; [lia|exact Hm].
Qed.

Lemma pow10_Z (k : Z) : 0 <= k -> Z.of_N (pow10 k) = 10 ^ k.
Proof.
  intros Hk. unfold pow10. rewrite Z2N.id; [reflexivity|].
  apply Z.pow_nonneg; lia.
Qed.

Lemma div_half_even_ge (c : N) (k : Z) :
  (c / pow10 k <= div_half_even c k)%N.
Proof.
  unfold div_half_even.
  repeat match goal with |- context [if ?b then _ else _] => destruct b end;
    lia.
Qed.

(** Rounding to the precision of the context keeps the sign and does not
    turn a non-zero value into zero. *)
Lemma round_prec_sign (d : Decimal) : dsign (round_prec d) = dsign d.
Proof.
  unfold round_prec.
  repeat match goal with |- context [if ?b then _ else _] => destruct b end;
    reflexivity.
Qed.

Lemma round_prec_small (d : Decimal) :
  ndigits (dcoef d) <= prec -> round_prec d = d.
Proof.
  intros H. unfold round_prec.
  destruct (ndigits (dcoef d) <=? prec) eqn:E; [reflexivity|].
  apply Z.leb_gt in E. lia.
Qed.

Lemma fix_ctx_sign (d r : Decimal) : fix_ctx d = Ok r -> dsign r = dsign d.
Proof.
  unfold fix_ctx.
  repeat match goal with |- context [if ?b then _ else _] => destruct b end;
    intros H; try discriminate H; injection H as <-;
    try reflexivity; apply round_prec_sign.
Qed.




(** [apply] is the conversion of the value, the scaling, the
    quantization step and the rendering, in this order. *)
Lemma apply_steps (P : Provider) (self : NumberPattern) (value : number)
    (locale : locale_arg) (currency : option str)
    (currency_digits decimal_quantization : bool)
    (force_frac : option (nat * nat)) (group_separator : bool)
    (numbering_system : str) :
  apply P self value locale currency currency_digits decimal_quantization
        force_frac group_separator numbering_system
  = (l <- coerce_locale P locale ;;
     d <- to_decimal value ;;
     v <- scaled_value self d ;;
     q <- quantization_step decimal_quantization
            (effective_frac_prec P self currency currency_digits force_frac)
            v ;;
     render self l (is_negative d) q
            (effective_frac_prec P self currency currency_digits force_frac)
            group_separator numbering_system).
Proof.
  unfold apply, scaled_value, quantization_step, render,
    effective_frac_prec.
  destruct (coerce_locale P locale) as [l|e]; [|reflexivity].
  cbn [bind].
  destruct (to_decimal value) as [d|e]; [|reflexivity].
  cbn [bind].
  destruct (scale self); reflexivity.
Qed.

(** ** C10: [is_currency] *)

(** [is_currency] turns the acceptance of [validate_currency] into
    [True] and its [UnknownCurrencyError] into [False]; every other
    exception of [validate_currency] comes out of [is_currency]. *)
Lemma is_currency_cases (P : Provider) (currency : str)
    (locale : locale_arg) :
  (is_currency P currency locale = Ok true
   /\ validate_currency P currency locale = Ok tt)
  \/ (is_currency P currency locale = Ok false
      /\ exists id, validate_currency P currency locale
                    = Raise (UnknownCurrencyError id))
  \/ (exists e, is_currency P currency locale = Raise e
                /\ validate_currency P currency locale = Raise e
                /\ forall id, e <> UnknownCurrencyError id).
Proof.
  unfold is_currency.
  destruct (validate_currency P currency locale) as [[]|e].
  - left. split; reflexivity.
  - right. destruct e;
      try (right; eexists; split; [reflexivity|];
           split; [reflexivity|]; intros id; discriminate).
    left. split; [reflexivity|]. eexists. reflexivity.
Qed.

(** What [Locale.parse] raises for the identifier comes out of
    [is_currency]. *)
Lemma is_currency_locale_error (P : Provider) (currency s : str) (e : exn) :
  Locale_parse P s = Raise e ->
  (forall id, e <> UnknownCurrencyError id) ->
  is_currency P currency (LStr s) = Raise e.
Proof.
  intros H Hn. unfold is_currency, validate_currency, list_currencies,
    coerce_locale.
  rewrite H. cbn [bind].
  destruct e; try reflexivity. exfalso. exact (Hn _ eq_refl).
Qed.

(** An entry of the territory that does not hold exactly two items
    makes [is_currency] raise [ValueError]. *)
Lemma is_currency_entry_error (P : Provider) (currency t : str)
    (l : Locale) (entry : currency_info) (entries : list currency_info) :
  territory l = Some t ->
  lookup (territory_currencies P) t = Some (entry :: entries) ->
  unpack_currency entry
  = Raise (ValueError (u "wrong number of values to unpack")) ->
  is_currency P currency (LObj l)
  = Raise (ValueError (u "wrong number of values to unpack")).
Proof.
  intros Ht Hl He. unfold is_currency, validate_currency, list_currencies.
  cbn [coerce_locale bind deref]. rewrite Ht, Hl.
  cbn [mapM]. rewrite He. reflexivity.
Qed.

(** C10.  [is_currency] raises: with a locale whose territory has an
    entry that is a mapping of four keys, as [get_territory_currencies]
    reads the entries, the unpacking of the entry into two names raises
    [ValueError]; with an identifier that [Locale.parse] does not accept
    the exception of [Locale.parse] comes out.  With entries that are
    pairs, and without a locale, the function returns [True] for a
    known and [False] for an unknown code. *)
Theorem is_currency_raises :
  is_currency Sample.provider (u "USD") (LStr (u "en_US"))
  = Raise (ValueError (u "wrong number of values to unpack"))
  /\ is_currency Sample.provider (u "USD") (LStr (u "not a locale"))
     = Raise (ValueError (u "unknown locale"))
  /\ is_currency Sample.provider (u "JPY") (LObj Sample.ja_JP) = Ok true
  /\ is_currency Sample.provider (u "USD") (LObj Sample.ja_JP) = Ok false
  /\ is_currency Sample.provider (u "USD") LNone = Ok true
  /\ is_currency Sample.provider (u "XXX") LNone = Ok false.
Proof. repeat split; vm_compute; reflexivity. Qed.

(** ** C9: the checks of [read_mo] *)

Lemma read_mo_header (buf : bytes) :
  read_mo buf =
  bind (read_header buf) (fun '(le, h) =>
    if negb ((nth 0 h 0 =? 0) || (nth 0 h 0 =? 1))
    then Raise (IOError (u "Unknown MO file version"))
    else read_entries buf le (Z.to_nat (nth 1 h 0)) (nth 2 h 0)
                      (nth 3 h 0) []).
Proof.
  unfold read_mo, read_header, bind.
  destruct (unpack true 1 _) as [m|e]; [|reflexivity].
  destruct (nth 0 m 0 =? LE_MAGIC).
  - destruct (unpack true 4 _); reflexivity.
  - destruct (nth 0 m 0 =? BE_MAGIC); [|reflexivity].
    destruct (unpack false 4 _); reflexivity.
Qed.

(** The loop after [k] rounds is the loop of the remaining rounds on the
    catalog and the table positions reached. *)
Lemma read_entries_split (buf : bytes) (le : bool) (k n : nat) :
  forall (masteridx transidx : Z) (catalog : Catalog),
  read_entries buf le (k + n) masteridx transidx catalog =
  bind (read_entries buf le k masteridx transidx catalog) (fun c =>
    read_entries buf le n (masteridx + 8 * Z.of_nat k)
                 (transidx + 8 * Z.of_nat k) c).
Proof.
  induction k as [|k IH]; intros mi ti cat.
  - simpl. rewrite !Z.add_0_r. reflexivity.
  - cbn [Nat.add read_entries]. unfold bind at 1 3.
    destruct (read_entry buf le mi ti cat) as [c|e]; [|reflexivity].
    rewrite IH. unfold bind.
    destruct (read_entries buf le k (mi + 8) (ti + 8) c); [|reflexivity].
    f_equal; lia.
Qed.

Lemma read_entry_corrupt (buf : bytes) (le : bool) (masteridx transidx : Z)
    (catalog : Catalog) (m t : list Z) :
  unpack le 2 (slice buf (Some masteridx) (Some (masteridx + 8))) = Ok m ->
  unpack le 2 (slice buf (Some transidx) (Some (transidx + 8))) = Ok t ->
  snd (get2 m) + fst (get2 m) > len buf
  \/ snd (get2 t) + fst (get2 t) > len buf ->
  read_entry buf le masteridx transidx catalog
  = Raise (IOError (u "File is corrupt")).
Proof.
  intros Hm Ht Hb. unfold read_entry. rewrite Hm, Ht. unfold bind.
  destruct (get2 m) as [mlen moff]. destruct (get2 t) as [tlen toff].
  simpl in Hb.
  replace ((moff + mlen >? len buf) || (toff + tlen >? len buf)) with true;
    [reflexivity|].
  symmetry. apply orb_true_iff.
  destruct Hb as [H|H]; [left|right]; apply Z.gtb_lt; lia.
Qed.

Lemma read_mo_bad_magic (buf : bytes) :
  bad_magic buf -> read_mo buf = Raise (IOError (u "Invalid magic number")).
Proof.
  intros [magic [Hm [Hle Hbe]]]. unfold read_mo. rewrite Hm.
  unfold bind. simpl nth.
  apply Z.eqb_neq in Hle, Hbe. rewrite Hle, Hbe. reflexivity.
Qed.

Lemma read_mo_bad_version (buf : bytes) :
  bad_version buf ->
  read_mo buf = Raise (IOError (u "Unknown MO file version")).
Proof.
  intros [le [h [Hh [H0 H1]]]]. rewrite read_mo_header, Hh. unfold bind.
  apply Z.eqb_neq in H0, H1. rewrite H0, H1. reflexivity.
Qed.

Lemma read_mo_corrupt_entry (buf : bytes) :
  corrupt_entry buf -> read_mo buf = Raise (IOError (u "File is corrupt")).
Proof.
  intros [le [h [k [cat [m [t [Hh [Hv [Hk [Hread [Hm [Ht Hb]]]]]]]]]]]].
  rewrite read_mo_header, Hh. unfold bind at 1.
  replace (negb ((nth 0 h 0 =? 0) || (nth 0 h 0 =? 1))) with false.
  2:{ destruct Hv as [-> | ->]; reflexivity. }
  set (count := Z.to_nat (nth 1 h 0)).
  replace count with (k + S (count - S k))%nat by (unfold count; lia).
  rewrite read_entries_split, Hread. unfold bind.
  cbn [read_entries].
  rewrite (read_entry_corrupt _ _ _ _ _ m t Hm Ht Hb). reflexivity.
Qed.

(** C9, as amended.  [read_mo] raises [IOError], and so returns no
    catalog, when the magic number can be read and is neither of the two
    constants, when the header can be read and the version is neither 0
    nor 1, and when the reader gets through the entries before an index
    entry, can read the two records of that entry, and the offset plus
    length that it computes for the key or the translation exceeds the
    length of the buffer. *)
Theorem read_mo_rejects (buf : bytes) :
  bad_magic buf \/ bad_version buf \/ corrupt_entry buf ->
  exists msg, read_mo buf = Raise (IOError msg).
Proof.
  intros [H | [H | H]].
  - eexists. apply read_mo_bad_magic, H.
  - eexists. apply read_mo_bad_version, H.
  - eexists. apply read_mo_corrupt_entry, H.
Qed.

Lemma read_mo_rejects_witness :
  (exists msg, read_mo buf_bad_magic = Raise (IOError msg))
  /\ (exists msg, read_mo buf_bad_version = Raise (IOError msg))
  /\ (exists msg, read_mo buf_corrupt = Raise (IOError msg)).
Proof.
  split; [|split].
  - apply read_mo_rejects. left.
    exists 0. vm_compute. repeat split; discriminate.
  - apply read_mo_rejects. right. left.
    exists true, [2; 0; 28; 28]. vm_compute. repeat split; discriminate.
  - apply read_mo_rejects. right. right.
    exists true, [0; 1; 28; 36], 0%nat, [], [44; 64], [0; 44].
    vm_compute. repeat split; try discriminate; try reflexivity.
    + left. reflexivity.
    + left. reflexivity.
Defined.

(** The claim fails where the buffer is too short for the field that is
    read.  In the buffer of 36 octets the key entry of the one message
    gives the length 44 at offset 64, beyond the buffer, and the value
    table lies at octet 1000: [read_mo] raises the error of
    [struct.unpack] at the value entry, before it compares with the
    length of the buffer.  In the buffer of 19 octets the version field
    holds 2 and the header cannot be unpacked.  Neither error is an
    [IOError]. *)
Lemma read_mo_struct_error :
  (read_header buf_short_index = Ok (true, [0; 1; 28; 1000])
   /\ unpack true 2 (slice buf_short_index (Some 28) (Some 36)) = Ok [44; 64]
   /\ 64 + 44 > len buf_short_index
   /\ read_mo buf_short_index = Raise StructError
   /\ ~ exists msg, read_mo buf_short_index = Raise (IOError msg))
  /\ (unpack true 1 (slice buf_short_header (Some 4) (Some 8)) = Ok [2]
      /\ read_mo buf_short_header = Raise StructError
      /\ ~ exists msg, read_mo buf_short_header = Raise (IOError msg)).
Proof.
  assert (H1 : read_mo buf_short_index = Raise StructError)
    by (vm_compute; reflexivity).
  assert (H2 : read_mo buf_short_header = Raise StructError)
    by (vm_compute; reflexivity).
  split; [split; [|split; [|split; [|split]]] | split; [|split]].
  - vm_compute. reflexivity.
  - vm_compute. reflexivity.
  - vm_compute. reflexivity.
  - exact H1.
  - intros [msg H]. rewrite H1 in H. discriminate H.
  - vm_compute. reflexivity.
  - exact H2.
  - intros [msg H]. rewrite H2 in H. discriminate H.
Qed.

(** ** C1: [write_mo] followed by [read_mo] *)

Lemma sort_singleton (message_sort : list Message -> list Message)
    (m : Message) :
  (forall l, Permutation (message_sort l) l) -> message_sort [m] = [m].
Proof.
  intros H. apply Permutation_length_1_inv, Permutation_sym, H.
Qed.

(** C1.  For the catalog of the single message [foo] -> [Voh] and any
    order of the messages, [write_mo] writes a file of 52 octets whose
    first index entry is (44, 3), the offset of the key followed by its
    length, and whose header places the second index table at octet 30,
    inside the first; [read_mo] on these octets raises [IOError].  For the
    catalog of the single plural message ([bar], [baz]), [write_mo]
    raises [AttributeError] at the key. *)
Theorem write_mo_read_mo_fails
    (message_sort : list Message -> list Message) :
  (forall l, Permutation (message_sort l) l) ->
  (exists out,
      write_mo message_sort [message_foo] false = Ok out
      /\ len out = 52
      /\ unpack true 2 (slice out (Some 28) (Some 36)) = Ok [44; 3]
      /\ unpack true 1 (slice out (Some 16) (Some 20)) = Ok [30]
      /\ read_mo out = Raise (IOError (u "File is corrupt")))
  /\ write_mo message_sort [message_bar] false
     = Raise (AttributeError (u "'tuple' object has no attribute 'encode'")).
Proof.
  intros Hsort. split.
  - eexists. unfold write_mo. rewrite (sort_singleton _ _ Hsort).
    split; [vm_compute; reflexivity|].
    repeat split; vm_compute; reflexivity.
  - unfold write_mo. rewrite (sort_singleton _ _ Hsort).
    vm_compute. reflexivity.
Qed.

Lemma write_mo_read_mo_fails_witness :
  (exists out,
      write_mo (fun l => l) [message_foo] false = Ok out
      /\ len out = 52
      /\ unpack true 2 (slice out (Some 28) (Some 36)) = Ok [44; 3]
      /\ unpack true 1 (slice out (Some 16) (Some 20)) = Ok [30]
      /\ read_mo out = Raise (IOError (u "File is corrupt")))
  /\ write_mo (fun l => l) [message_bar] false
     = Raise (AttributeError (u "'tuple' object has no attribute 'encode'")).
Proof.
  apply (write_mo_read_mo_fails (fun l => l)).
  intros l. apply Permutation_refl.
Defined.

(** ** C8: [normalize] followed by [denormalize] *)

(** C8.  [normalize] turns [abc] into the empty literal, a newline and
    the literal of [abc]; [denormalize] turns that into [ab].  With width
    3, [normalize] joins the words of [aaa bbb] without the space.
    [unescape] leaves the sequence backslash-n as it is. *)
Theorem denormalize_normalize_fails :
  normalize (u "abc") [] (Some 76) = [34; 34; 10; 34] ++ u "abc" ++ [34]
  /\ denormalize (normalize (u "abc") [] (Some 76)) = u "ab"
  /\ normalize (u "aaa bbb") [] (Some 3)
     = [34; 34; 10; 34] ++ u "aaabbb" ++ [34]
  /\ unescape ([34] ++ u "a\nb" ++ [34]) = u "a\nb".
Proof. repeat split; vm_compute; reflexivity. Qed.

(** ** The call of [apply] in [format_decimal] *)

(** [format_decimal] does not return: when nothing fails before, the call
    of [apply] with the keyword [symbols] raises [TypeError]. *)
Lemma format_decimal_never_returns (P : Provider) (number : number)
    (format : option format) (locale : locale_arg)
    (decimal_quantization group_separator : bool) (numbering_system s : str) :
  format_decimal P number format locale decimal_quantization
                 group_separator numbering_system <> Ok s.
Proof.
  unfold format_decimal, bind.
  repeat match goal with
         | |- match ?x with _ => _ end <> _ => destruct x; try discriminate
         end.
Qed.

(** In strict mode [parse_decimal] does not return either. *)
Lemma parse_decimal_strict_never_returns (P : Provider) (string : str)
    (locale : locale_arg) (numbering_system : str) (d : Decimal) :
  parse_decimal P string locale true numbering_system <> Ok d.
Proof.
  unfold parse_decimal, bind.
  destruct (coerce_locale P locale) as [lo|e]; [|discriminate].
  destruct (deref lo) as [a|e]; [|discriminate].
  destruct (get_symbols _ _); [|discriminate].
  destruct (of_str _) as [parsed|e]; [|destruct e; discriminate].
  destruct (format_decimal P (NDec parsed) None (LObj a) true true _)
    as [f|e] eqn:E; [|discriminate].
  exfalso. exact (format_decimal_never_returns _ _ _ _ _ _ _ _ E).
Qed.

(** ** C2: compact formats *)

(** [_get_compact_format] raises [NameError] for every number whose
    absolute value is computed and is not zero: the module does not
    import [math]. *)
Lemma get_compact_format_nonzero (P : Provider) (number a : number)
    (compact_format : dict str (dict str format)) (locale : Locale)
    (fraction_digits : nat) :
  (forall s, number <> NStr s) ->
  number_abs number = Ok a ->
  number_is_zero a = false ->
  _get_compact_format number compact_format locale fraction_digits
  = Raise (NameError (u "math")).
Proof.
  intros Hs Ha Hz. unfold _get_compact_format.
  destruct number as [n | r | d | s]; try (exfalso; apply (Hs s); reflexivity).
  all: cbn [bind]; rewrite Ha; cbn [bind]; rewrite Hz; reflexivity.
Qed.

(** When the absolute value of a Decimal exceeds the exponent limit of
    the context, [_get_compact_format] raises [Overflow] before the name
    [math] is evaluated. *)
Lemma get_compact_format_overflow (P : Provider) (d : Decimal)
    (compact_format : dict str (dict str format)) (locale : Locale)
    (fraction_digits : nat) :
  Dec.abs d = Raise DecimalOverflow ->
  _get_compact_format (NDec d) compact_format locale fraction_digits
  = Raise DecimalOverflow.
Proof.
  intros H. unfold _get_compact_format. cbn [bind number_abs].
  rewrite H. reflexivity.
Qed.

(** C2.  [format_compact_decimal(12345, format_type="short",
    locale="en_US")] raises [NameError] for the name [math], with
    [fraction_digits] 0 and with [fraction_digits] 2. *)
Theorem format_compact_decimal_name_error :
  format_compact_decimal Sample.provider (NInt 12345) (u "short")
                         (LStr (u "en_US")) 0 (u "latn")
  = Raise (NameError (u "math"))
  /\ format_compact_decimal Sample.provider (NInt 12345) (u "short")
                            (LStr (u "en_US")) 2 (u "latn")
     = Raise (NameError (u "math")).
Proof. split; vm_compute; reflexivity. Qed.

(** ** C3: strict parsing *)

(** C3.  [parse_decimal("30.00", locale="de", strict=True)] raises
    [TypeError], from the call of [apply] in [format_decimal], and not
    [NumberFormatError]; so does the canonical [3.000].  Without
    [strict] the string [30.00] is cleaned to [3000] and parsed. *)
Theorem parse_decimal_strict_type_error :
  parse_decimal Sample.provider (u "30.00") (LStr (u "de")) true (u "latn")
  = Raise symbols_keyword_error
  /\ parse_decimal Sample.provider (u "3.000") (LStr (u "de")) true (u "latn")
     = Raise symbols_keyword_error
  /\ parse_decimal Sample.provider (u "30.00") (LStr (u "de")) false (u "latn")
     = Ok (mkDec false 3000 0).
Proof. repeat split; vm_compute; reflexivity. Qed.

(** ** C4: the precision of a currency *)

(** With a currency and [currency_digits], [apply] renders as with the
    digits of the currency forced; with [currency_digits] false, as
    without a currency. *)
Lemma apply_currency_digits (P : Provider) (self : NumberPattern)
    (value : number) (locale : locale_arg) (c : char) (currency : str)
    (decimal_quantization : bool) (force_frac : option (nat * nat))
    (group_separator : bool) (numbering_system : str) :
  apply P self value locale (Some (c :: currency)) true
        decimal_quantization force_frac group_separator numbering_system
  = apply P self value locale None true decimal_quantization
          (Some (get_currency_precision P (c :: currency),
                 get_currency_precision P (c :: currency)))
          group_separator numbering_system.
Proof. reflexivity. Qed.

Lemma apply_no_currency_digits (P : Provider) (self : NumberPattern)
    (value : number) (locale : locale_arg) (currency : option str)
    (decimal_quantization : bool) (force_frac : option (nat * nat))
    (group_separator : bool) (numbering_system : str) :
  apply P self value locale currency false decimal_quantization force_frac
        group_separator numbering_system
  = apply P self value locale None false decimal_quantization force_frac
          group_separator numbering_system.
Proof.
  unfold apply. destruct currency as [[|c s]|]; reflexivity.
Qed.

(** C4.  [format_currency(1099.98, "JPY", locale="en_US")] returns the
    number with no fraction digits, and with [currency_digits=False] the
    number with the two fraction digits of the pattern; in both the
    currency sign of the pattern is left in place of the symbol of the
    yen. *)
Theorem format_currency_keeps_placeholder :
  format_currency Sample.provider (NFloat (u "1099.98")) (u "JPY") None
                  (LStr (u "en_US")) true (u "standard") true true (u "latn")
  = Ok (u "¤1,100")
  /\ format_currency Sample.provider (NFloat (u "1099.98")) (u "JPY") None
                     (LStr (u "en_US")) false (u "standard") true true
                     (u "latn")
     = Ok (u "¤1,099.98").
Proof. split; vm_compute; reflexivity. Qed.

(** ** C5: grouping *)

(** C5.  [_format_int_part] puts the group symbol every [grouping[0]]
    digits and does not read [grouping[1]]: with the grouping (3, 2) of
    the pattern [#,##,##0.###] the digits 1234567 come out as
    [1,234,567].  [format_decimal(12345.5, locale="en_US")] raises
    [TypeError], with and without the group separator; [apply] on the
    pattern of the locale gives [12,345.5] and [12345.5]. *)
Theorem format_int_part_primary_only :
  _format_int_part (u "1234567") (3, 2) (u ",") = Ok (u "1,234,567")
  /\ bind (parse_pattern_str (u "#,##,##0.###")) (fun p =>
       Ok (grouping p,
           apply Sample.provider p (NInt 1234567) (LStr (u "en_US")) None
                 true true None true (u "latn")))
     = Ok ((3, 2), Ok (u "1,234,567"))
  /\ format_decimal Sample.provider (NFloat (u "12345.5")) None
                    (LStr (u "en_US")) true true (u "latn")
     = Raise symbols_keyword_error
  /\ format_decimal Sample.provider (NFloat (u "12345.5")) None
                    (LStr (u "en_US")) true false (u "latn")
     = Raise symbols_keyword_error
  /\ bind (parse_pattern_str (u "#,##0.###")) (fun p =>
       Ok (apply Sample.provider p (NFloat (u "12345.5")) (LStr (u "en_US"))
                 None true true None true (u "latn"),
           apply Sample.provider p (NFloat (u "12345.5")) (LStr (u "en_US"))
                 None true true None false (u "latn")))
     = Ok (Ok (u "12,345.5"), Ok (u "12345.5")).
Proof. repeat split; vm_compute; reflexivity. Qed.

(** ** C6: quantization *)

Lemma pow10_pos (k : Z) : 0 <= k -> (0 < pow10 k)%N.
Proof.
  intros H. apply N2Z.inj_lt. rewrite pow10_Z by assumption.
  simpl. apply Z.pow_pos_nonneg; lia.
Qed.

(** [div_half_even c k] is a nearest multiple of [10 ^ k] to [c], and
    an even one when [c] lies half way between two. *)
Lemma div_half_even_nearest (c : N) (k : Z) :
  0 <= k ->
  let q := Z.of_N (div_half_even c k) in
  2 * Z.abs (Z.of_N c - q * 10 ^ k) <= 10 ^ k
  /\ (2 * Z.abs (Z.of_N c - q * 10 ^ k) = 10 ^ k -> Z.even q = true).
Proof.
  intros Hk. cbv zeta. unfold div_half_even.
  pose proof (pow10_pos k Hk) as Hp.
  pose proof (N.div_mod c (pow10 k) ltac:(lia)) as Hdm.
  pose proof (N.mod_lt c (pow10 k) ltac:(lia)) as Hlt.
  rewrite <- (pow10_Z k Hk).
  set (p := pow10 k) in *. set (q0 := (c / p)%N) in *.
  set (r := (c mod p)%N) in *.
  assert (Hc : Z.of_N c = Z.of_N p * Z.of_N q0 + Z.of_N r) by lia.
  destruct (2 * r <? p)%N eqn:E1.
  - apply N.ltb_lt in E1. split; [|intros]; lia.
  - apply N.ltb_ge in E1. destruct (p <? 2 * r)%N eqn:E2.
    + apply N.ltb_lt in E2. rewrite N2Z.inj_add. simpl Z.of_N.
      split; [|intros]; nia.
    + apply N.ltb_ge in E2. assert (Hr : (2 * r = p)%N) by lia.
      destruct (N.even q0) eqn:E3.
      * split; [lia|]. intros _.
        rewrite <- E3. destruct q0; reflexivity.
      * rewrite N2Z.inj_add. simpl Z.of_N. split; [nia|]. intros _.
        rewrite Z.even_add. simpl.
        replace (Z.even (Z.of_N q0)) with (N.even q0); [rewrite E3; reflexivity|].
        destruct q0; reflexivity.
Qed.

Lemma rescale_zero (d : Decimal) (e : Z) :
  is_zero d = true -> rescale d e = mkDec (dsign d) 0 e.
Proof.
  unfold is_zero, rescale. intros Hz. apply N.eqb_eq in Hz. rewrite Hz.
  destruct (dexp d >=? e) eqn:E; [reflexivity|].
  assert (Hk : 0 <= e - dexp d)
    by (rewrite Z.geb_leb in E; apply Z.leb_gt in E; lia).
  pose proof (pow10_pos _ Hk) as Hp.
  unfold div_half_even.
  rewrite N.Div0.div_0_l, N.Div0.mod_0_l.
  replace (2 * 0 <? pow10 (e - dexp d))%N with true; [reflexivity|].
  symmetry. apply N.ltb_lt. lia.
Qed.

(** [_fix] leaves a value as it is when the coefficient has at most
    [prec] digits and the exponent and the adjusted exponent are within
    the limits. *)
Lemma fix_ctx_id (d : Decimal) :
  ndigits (dcoef d) <= prec ->
  Etiny <= dexp d ->
  (if is_zero d then dexp d <= Emax else adjusted d <= Emax) ->
  fix_ctx d = Ok d.
Proof.
  intros Hn He Ha. unfold fix_ctx. destruct (is_zero d) eqn:Hz.
  - unfold is_zero in Hz. apply N.eqb_eq in Hz.
    destruct d as [sg c ex]. simpl in *. subst c.
    do 2 f_equal. lia.
  - rewrite Z.gtb_ltb, (proj2 (Z.ltb_ge Emax (adjusted d))) by lia.
    destruct (adjusted d <? Emin).
    + rewrite (proj2 (Z.ltb_ge (dexp d) Etiny)) by lia. reflexivity.
    + rewrite (round_prec_small d Hn).
      rewrite Z.gtb_ltb, (proj2 (Z.ltb_ge Emax (adjusted d))) by lia.
      reflexivity.
Qed.

(** What [quantize] returns is the value rescaled to the exponent asked
    for, which lies within the limits of the context. *)
Lemma quantize_rescale (d r : Decimal) (e : Z) :
  quantize d e = Ok r ->
  r = rescale d e
  /\ Etiny <= e <= Emax
  /\ ndigits (dcoef r) <= prec
  /\ (is_zero r = false -> adjusted r <= Emax)
  /\ (is_zero d = false -> adjusted d <= Emax).
Proof.
  unfold quantize.
  destruct ((Etiny <=? e) && (e <=? Emax)) eqn:Er; [|discriminate].
  apply andb_true_iff in Er. destruct Er as [E1 E2].
  apply Z.leb_le in E1, E2. cbn [negb].
  destruct (is_zero d) eqn:Ez.
  - rewrite fix_ctx_id.
    + intros H. injection H as <-. rewrite (rescale_zero d e Ez).
      repeat split; try lia; try discriminate.
    + vm_compute. discriminate.
    + exact E1.
    + exact E2.
  - destruct (adjusted d >? Emax) eqn:Ed; [discriminate|].
    rewrite Z.gtb_ltb in Ed. apply Z.ltb_ge in Ed.
    destruct (adjusted d - e + 1 >? prec); [discriminate|].
    destruct (adjusted (rescale d e) >? Emax) eqn:Ea; [discriminate|].
    destruct (ndigits (dcoef (rescale d e)) >? prec) eqn:En; [discriminate|].
    rewrite Z.gtb_ltb in Ea, En. apply Z.ltb_ge in Ea, En.
    assert (He : dexp (rescale d e) = e)
      by (unfold rescale; destruct (dexp d >=? e); reflexivity).
    rewrite fix_ctx_id.
    + intros H. injection H as <-. repeat split; try lia.
    + exact En.
    + rewrite He. exact E1.
    + destruct (is_zero (rescale d e)); [rewrite He; exact E2|exact Ea].
Qed.

(** What [quantize] returns has the sign of the value and the exponent
    asked for; its coefficient is the coefficient of the value, extended
    by zeros or divided with [div_half_even]. *)
Lemma quantize_result (d r : Decimal) (e : Z) :
  quantize d e = Ok r ->
  dsign r = dsign d /\ dexp r = e
  /\ dcoef r = (if dexp d >=? e then dcoef d * pow10 (dexp d - e)
                else div_half_even (dcoef d) (e - dexp d))%N.
Proof.
  intros H. destruct (quantize_rescale d r e H) as [-> _].
  unfold rescale. destruct (dexp d >=? e); repeat split.
Qed.

(** ** C7: the scale of a pattern and the scaling of the value *)

Lemma quantum_exp (p : nat) :
  dexp (get_decimal_quantum p) = Z.max (- Z.of_nat p) Etiny.
Proof.
  unfold get_decimal_quantum, pow_tenth.
  destruct (Z.ltb_spec (- Z.of_nat p) Etiny); cbn [dexp]; lia.
Qed.



(** The affixes are those of the compiled pattern: a literal text that
    holds one of the characters [0 # , . E] is not stored as an affix,
    and a percent sign in it sets no scale. *)
Lemma parse_pattern_literal_with_point :
  bind (parse_pattern (FStr (u "#,##0.0% p.a.")))
       (fun p => Ok (prefix p, suffix p, scale p))
  = Ok (([], u "-"), ([], []), 0%nat).
Proof. vm_compute. reflexivity. Qed.


(** C6.  [format_decimal(1.2345, locale="en_US")] and
    [format_decimal(1.2346, locale="en_US")] raise [TypeError] at the
    call of [apply].  [apply] itself, on the pattern of the locale,
    quantizes to three fraction digits with ties to even and gives
    [1.234] and [1.235]. *)
Theorem format_decimal_type_error :
  format_decimal Sample.provider (NFloat (u "1.2345")) None
                 (LStr (u "en_US")) true true (u "latn")
  = Raise symbols_keyword_error
  /\ format_decimal Sample.provider (NFloat (u "1.2346")) None
                    (LStr (u "en_US")) true true (u "latn")
     = Raise symbols_keyword_error
  /\ bind (parse_pattern_str (u "#,##0.###")) (fun p =>
       Ok (apply Sample.provider p (NFloat (u "1.2345")) (LStr (u "en_US"))
                 None true true None true (u "latn"),
           apply Sample.provider p (NFloat (u "1.2346")) (LStr (u "en_US"))
                 None true true None true (u "latn")))
     = Ok (Ok (u "1.234"), Ok (u "1.235")).
Proof. repeat split; vm_compute; reflexivity. Qed.

(* ================================================================== *)
(** * Further properties of the code *)
(* ================================================================== *)

(** ** The callers of [format_decimal] *)

(** X1.  [format_decimal] returns for no input: every call ends in an
    exception. *)
Theorem format_decimal_always_raises (P : Provider) (number : number)
    (format : option format) (locale : locale_arg)
    (decimal_quantization group_separator : bool) (numbering_system : str) :
  exists e,
    format_decimal P number format locale decimal_quantization
                   group_separator numbering_system = Raise e.
Proof.
  destruct (format_decimal P number format locale decimal_quantization
              group_separator numbering_system) as [s|e] eqn:E.
  - exfalso. exact (format_decimal_never_returns _ _ _ _ _ _ _ _ E).
  - exists e. reflexivity.
Qed.

(** X2.  With [strict=True], [parse_decimal] returns for no input. *)
Theorem parse_decimal_strict_always_raises (P : Provider) (string : str)
    (locale : locale_arg) (numbering_system : str) :
  exists e, parse_decimal P string locale true numbering_system = Raise e.
Proof.
  destruct (parse_decimal P string locale true numbering_system)
    as [d|e] eqn:E.
  - exfalso. exact (parse_decimal_strict_never_returns _ _ _ _ _ E).
  - exists e. reflexivity.
Qed.

(** X3.  With [format_type='name'], [format_currency] returns for no
    input: the long-name form starts with [format_decimal]. *)
Theorem format_currency_name_always_raises (P : Provider) (number : number)
    (currency : str) (format : option format) (locale : locale_arg)
    (currency_digits decimal_quantization group_separator : bool)
    (numbering_system : str) :
  exists e,
    format_currency P number currency format locale currency_digits
                    (u "name") decimal_quantization group_separator
                    numbering_system = Raise e.
Proof.
  unfold format_currency.
  destruct (coerce_locale P locale) as [lo|e]; [|exists e; reflexivity].
  cbn [bind].
  change (seq_eqb (u "name") (u "name")) with true. cbv iota.
  unfold _format_currency_long_name.
  destruct (format_decimal P number format _ decimal_quantization
              group_separator numbering_system) as [s|e] eqn:E.
  - exfalso. exact (format_decimal_never_returns _ _ _ _ _ _ _ _ E).
  - exists e. reflexivity.
Qed.

(** ** Compact formats *)

(** X4.  For every locale that [Locale.parse] accepts and that has the
    format type, and every number (an int, a float or a finite Decimal)
    whose absolute value the decimal context computes and is not zero,
    [format_compact_decimal] raises [NameError] for the name [math].  A
    Decimal above the exponent limit of the context raises [Overflow]
    at [abs(number)] instead. *)
Theorem format_compact_decimal_nonzero (P : Provider) (number a : number)
    (format_type : str) (locale : locale_arg) (l : Locale)
    (fraction_digits : nat) (numbering_system : str)
    (entry : str * dict str format) (compact_format : dict str (dict str format)) :
  (forall s, number <> NStr s) ->
  number_abs number = Ok a ->
  number_is_zero a = false ->
  coerce_locale P locale = Ok (Some l) ->
  lookup (compact_decimal_formats l) format_type
  = Some (entry :: compact_format) ->
  format_compact_decimal P number format_type locale fraction_digits
                         numbering_system
  = Raise (NameError (u "math"))
  /\ forall d, Dec.abs d = Raise DecimalOverflow ->
       format_compact_decimal P (NDec d) format_type locale fraction_digits
                              numbering_system
       = Raise DecimalOverflow.
Proof.
  intros Hs Ha Hz Hl Hf. unfold format_compact_decimal.
  rewrite Hl. cbn [bind deref]. split.
  - assert (Hn : match number with
                 | NStr s => bind (of_str s) (fun d => Ok (NDec d))
                 | _ => Ok number
                 end = Ok number).
    { destruct number; try reflexivity. exfalso. eapply Hs. reflexivity. }
    rewrite Hn. cbn [bind]. rewrite Hf.
    rewrite (get_compact_format_nonzero P number a _ l fraction_digits
               Hs Ha Hz).
    reflexivity.
  - intros d Hd. rewrite Hf.
    rewrite (get_compact_format_overflow P d _ l fraction_digits Hd).
    reflexivity.
Qed.

Lemma format_compact_decimal_nonzero_witness :
  format_compact_decimal Sample.provider (NDec (mkDec true 15 (-1)))
                         (u "short") (LObj Sample.en_US) 1 (u "latn")
  = Raise (NameError (u "math"))
  /\ format_compact_decimal Sample.provider (NDec (mkDec false 1 1000000))
                            (u "short") (LObj Sample.en_US) 1 (u "latn")
     = Raise DecimalOverflow.
Proof.
  destruct (format_compact_decimal_nonzero Sample.provider
           (NDec (mkDec true 15 (-1))) (NDec (mkDec false 15 (-1)))
           (u "short") (LObj Sample.en_US)
           Sample.en_US 1 (u "latn")
           (u "one", [ (u "1000", FStr (u "0K")); (u "10000", FStr (u "00K"));
                       (u "100000", FStr (u "000K"));
                       (u "1000000", FStr (u "0M")) ])
           [ (u "other", [ (u "1000", FStr (u "0K")); (u "10000", FStr (u "00K"));
                           (u "100000", FStr (u "000K"));
                           (u "1000000", FStr (u "0M")) ]) ])
    as [H1 H2].
  - intros s. discriminate.
  - vm_compute. reflexivity.
  - reflexivity.
  - reflexivity.
  - vm_compute. reflexivity.
  - split; [exact H1|]. apply H2. vm_compute. reflexivity.
Defined.

(** X5.  The same for [format_compact_currency]. *)
Theorem format_compact_currency_nonzero (P : Provider)
    (compact_currency_formats : Locale -> dict str (dict str (dict str format)))
    (number a : number) (currency format_type : str) (locale : locale_arg)
    (l : Locale) (fraction_digits : nat) (numbering_system : str)
    (entry : str * dict str format) (compact_format : dict str (dict str format)) :
  (forall s, number <> NStr s) ->
  number_abs number = Ok a ->
  number_is_zero a = false ->
  coerce_locale P locale = Ok (Some l) ->
  lookup (compact_currency_formats l) format_type
  = Some (entry :: compact_format) ->
  format_compact_currency P compact_currency_formats number currency
                          format_type locale fraction_digits numbering_system
  = Raise (NameError (u "math"))
  /\ forall d, Dec.abs d = Raise DecimalOverflow ->
       format_compact_currency P compact_currency_formats (NDec d) currency
                               format_type locale fraction_digits
                               numbering_system
       = Raise DecimalOverflow.
Proof.
  intros Hs Ha Hz Hl Hf. unfold format_compact_currency.
  rewrite Hl. cbn [bind deref]. split.
  - assert (Hn : match number with
                 | NStr s => bind (of_str s) (fun d => Ok (NDec d))
                 | _ => Ok number
                 end = Ok number).
    { destruct number; try reflexivity. exfalso. eapply Hs. reflexivity. }
    rewrite Hn. cbn [bind]. rewrite Hf.
    rewrite (get_compact_format_nonzero P number a _ l fraction_digits
               Hs Ha Hz).
    reflexivity.
  - intros d Hd. rewrite Hf.
    rewrite (get_compact_format_overflow P d _ l fraction_digits Hd).
    reflexivity.
Qed.

Lemma format_compact_currency_nonzero_witness :
  format_compact_currency Sample.provider
    (fun _ => [(u "short", [(u "other", [(u "1000", FStr (u "¤0K"))])])])
    (NInt 12345) (u "USD") (u "short") (LStr (u "en_US")) 0 (u "latn")
  = Raise (NameError (u "math"))
  /\ format_compact_currency Sample.provider
       (fun _ => [(u "short", [(u "other", [(u "1000", FStr (u "¤0K"))])])])
       (NDec (mkDec false 1 1000000)) (u "USD") (u "short")
       (LStr (u "en_US")) 0 (u "latn")
     = Raise DecimalOverflow.
Proof.
  destruct (format_compact_currency_nonzero Sample.provider
           (fun _ => [(u "short", [(u "other", [(u "1000", FStr (u "¤0K"))])])])
           (NInt 12345) (NInt 12345)
           (u "USD") (u "short") (LStr (u "en_US")) Sample.en_US 0 (u "latn")
           (u "other", [(u "1000", FStr (u "¤0K"))]) [])
    as [H1 H2].
  - intros s. discriminate.
  - reflexivity.
  - reflexivity.
  - reflexivity.
  - reflexivity.
  - split; [exact H1|]. apply H2. vm_compute. reflexivity.
Defined.

(** ** Patterns without a fraction part *)




(** ** The flag [decimal_quantization] *)

Lemma pow10_add (a b : Z) :
  0 <= a -> 0 <= b -> (pow10 a * pow10 b)%N = pow10 (a + b).
Proof.
  intros Ha Hb. apply N2Z.inj. rewrite N2Z.inj_mul, !pow10_Z by lia.
  rewrite Z.pow_add_r by lia. reflexivity.
Qed.

(** Rescaling in two steps, the first of which only adds zeros, is
    rescaling in one. *)
Lemma rescale_rescale (d : Decimal) (e e' : Z) :
  e' <= e -> (e <= dexp d \/ e' = e) ->
  rescale (rescale d e) e' = rescale d e'.
Proof.
  intros Hle H. unfold rescale at 1 3.
  assert (He : dexp (rescale d e) = e)
    by (unfold rescale; destruct (dexp d >=? e); reflexivity).
  rewrite He.
  replace (e >=? e') with true by (symmetry; rewrite Z.geb_leb; apply Z.leb_le; lia).
  assert (Hs : dsign (rescale d e) = dsign d)
    by (unfold rescale; destruct (dexp d >=? e); reflexivity).
  rewrite Hs.
  destruct H as [H| ->].
  - unfold rescale.
    replace (dexp d >=? e) with true by (symmetry; rewrite Z.geb_leb; apply Z.leb_le; lia).
    replace (dexp d >=? e') with true by (symmetry; rewrite Z.geb_leb; apply Z.leb_le; lia).
    cbn [dcoef]. rewrite <- N.mul_assoc, pow10_add by lia.
    replace (dexp d - e + (e - e')) with (dexp d - e') by lia. reflexivity.
  - rewrite Z.sub_diag. change (pow10 0) with 1%N. rewrite N.mul_1_r.
    unfold rescale. destruct (dexp d >=? e); reflexivity.
Qed.

Lemma rescale_sign_coef (d : Decimal) (sg : bool) (e : Z) :
  rescale (mkDec sg (dcoef d) (dexp d)) e
  = mkDec sg (dcoef (rescale d e)) e.
Proof.
  unfold rescale. cbn [dsign dcoef dexp].
  destruct (dexp d >=? e); reflexivity.
Qed.

(** The absolute value of what [quantize] returned, and of the value
    itself, rescale to the same decimal for the fixed-point format. *)
Lemma abs_quantized (v q q' : Decimal) (p : nat) :
  quantize v (dexp (get_decimal_quantum p)) = Ok q ->
  ndigits (dcoef v) <= prec ->
  Etiny <= dexp v ->
  Dec.abs q = Ok q' ->
  exists v', Dec.abs v = Ok v'
             /\ rescale v' (- Z.of_nat p) = rescale q' (- Z.of_nat p).
Proof.
  intros Hq Hn He Hq'.
  rewrite quantum_exp in Hq.
  set (e := Z.max (- Z.of_nat p) Etiny) in *.
  destruct (quantize_rescale v q e Hq) as [-> [He' [Hd [Ha Hv]]]].
  assert (Hexp : dexp (rescale v e) = e)
    by (unfold rescale; destruct (dexp v >=? e); reflexivity).
  assert (Hqa : q' = mkDec false (dcoef (rescale v e)) e).
  { unfold Dec.abs in Hq'. rewrite Hexp in Hq'.
    rewrite fix_ctx_id in Hq'.
    - injection Hq' as <-. reflexivity.
    - exact Hd.
    - cbn [dexp]. lia.
    - change (is_zero (mkDec false (dcoef (rescale v e)) e))
        with (is_zero (rescale v e)).
      destruct (is_zero (rescale v e)) eqn:Ez; [cbn [dexp]; lia|].
      unfold adjusted in *. cbn [dexp dcoef]. rewrite Hexp in Ha.
      apply Ha. reflexivity. }
  subst q'.
  assert (Hr : rescale (mkDec false (dcoef (rescale v e)) e) (- Z.of_nat p)
               = mkDec false (dcoef (rescale v (- Z.of_nat p))) (- Z.of_nat p)).
  { transitivity (rescale (mkDec false (dcoef (rescale v e))
                                   (dexp (rescale v e))) (- Z.of_nat p));
      [rewrite Hexp; reflexivity|].
    rewrite (rescale_sign_coef (rescale v e) false (- Z.of_nat p)).
    rewrite rescale_rescale; [reflexivity|unfold e; lia|].
    unfold e. destruct (Z.max_spec (- Z.of_nat p) Etiny) as [[_ ->]|[_ ->]];
      [left; exact He | right; reflexivity]. }
  rewrite Hr.
  destruct (is_zero v) eqn:Ez.
  - unfold Dec.abs, fix_ctx.
    change (is_zero (mkDec false (dcoef v) (dexp v))) with (is_zero v).
    rewrite Ez. eexists. split; [reflexivity|].
    rewrite (rescale_zero v (- Z.of_nat p) Ez). cbn [dcoef dsign dexp].
    apply rescale_zero. reflexivity.
  - exists (mkDec false (dcoef v) (dexp v)). split.
    + unfold Dec.abs. apply fix_ctx_id.
      * exact Hn.
      * exact He.
      * change (is_zero (mkDec false (dcoef v) (dexp v))) with (is_zero v).
        rewrite Ez. apply Hv. reflexivity.
    + apply rescale_sign_coef.
Qed.

(** With a value below [Etiny] the two settings differ: [abs] rounds
    54E-1000027 to 5E-1000026, which the fixed-point format with
    1000025 digits rounds to zero, while [quantize] rounds the value to
    1E-1000025 at once. *)
Lemma quantization_flag_below_Etiny :
  Dec.abs (mkDec false 54 (-1000027)) = Ok (mkDec false 5 (-1000026))
  /\ rescale (mkDec false 5 (-1000026)) (-1000025)
     = mkDec false 0 (-1000025)
  /\ quantize (mkDec false 54 (-1000027)) (-1000025)
     = Ok (mkDec false 1 (-1000025))
  /\ Dec.abs (mkDec false 1 (-1000025)) = Ok (mkDec false 1 (-1000025)).
Proof. repeat split; vm_compute; reflexivity. Qed.

(** X7.  For a value that, after scaling, has at most 28 digits and an
    exponent of [Etiny] = -1000026 or more, whatever [apply] returns
    with [decimal_quantization=True] it returns with
    [decimal_quantization=False] too: without quantization the value is
    still rounded to the fraction precision, by the fixed-point
    formatting. *)
Theorem apply_quantization_flag (P : Provider) (self : NumberPattern)
    (value : number) (d v : Decimal) (locale : locale_arg)
    (currency : option str) (currency_digits : bool)
    (force_frac : option (nat * nat)) (group_separator : bool)
    (numbering_system s : str) :
  to_decimal value = Ok d ->
  scaled_value self d = Ok v ->
  ndigits (dcoef v) <= prec ->
  Etiny <= dexp v ->
  apply P self value locale currency currency_digits true force_frac
        group_separator numbering_system = Ok s ->
  apply P self value locale currency currency_digits false force_frac
        group_separator numbering_system = Ok s.
Proof.
  intros Hd Hv Hn He. rewrite !apply_steps.
  destruct (coerce_locale P locale) as [lo|e]; [|discriminate].
  cbn [bind]. rewrite Hd. cbn [bind]. rewrite Hv. cbn [bind].
  unfold quantization_step.
  set (fp := effective_frac_prec P self currency currency_digits force_frac).
  destruct (subscript1 fp) as [p|e] eqn:Hp; [|discriminate].
  cbn [bind].
  destruct (quantize v (dexp (get_decimal_quantum p))) as [q|e] eqn:Hq;
    [|discriminate].
  cbn [bind]. unfold render.
  destruct (deref lo) as [l|e]; [|discriminate].
  cbn [bind].
  destruct (get_symbols l numbering_system) as [sy|e]; [|discriminate].
  cbn [bind].
  destruct (Dec.abs q) as [q'|e] eqn:Hq'; [|discriminate].
  destruct (abs_quantized v q q' p Hq Hn He Hq') as [v' [Hv' Hr]].
  rewrite Hv'. cbn [bind]. rewrite Hp. cbn [bind].
  unfold format_f. rewrite Hr. intros H. exact H.
Qed.

Lemma apply_quantization_flag_witness :
  exists self,
    parse_pattern_str (u "#,##0.###") = Ok self
    /\ apply Sample.provider self (NFloat (u "1.2346")) (LStr (u "en_US"))
             None true false None true (u "latn") = Ok (u "1.235").
Proof.
  eexists. split; [vm_compute; reflexivity|].
  apply (apply_quantization_flag Sample.provider _ (NFloat (u "1.2346"))
           (mkDec false 12346 (-4)) (mkDec false 12346 (-4))).
  - reflexivity.
  - reflexivity.
  - vm_compute. discriminate.
  - vm_compute. discriminate.
  - vm_compute. reflexivity.
Defined.

(** ** [_format_int_part] *)

Lemma div_step (i g : Z) :
  0 < g -> 1 <= i ->
  i / g = (i - 1) / g + (if i mod g =? 0 then 1 else 0).
Proof.
  intros Hg Hi.
  pose proof (Z.div_mod i g ltac:(lia)) as Hdm.
  pose proof (Z.mod_pos_bound i g Hg) as Hb.
  destruct (Z.eqb_spec (i mod g) 0) as [E|E].
  - assert (H : i / g - 1 = (i - 1) / g).
    { apply (Z.div_unique (i - 1) g (i / g - 1) (g - 1)); [left|]; lia. }
    lia.
  - assert (H : i / g = (i - 1) / g).
    { apply (Z.div_unique (i - 1) g (i / g) (i mod g - 1)); [left|]; lia. }
    lia.
Qed.

(** The loop from index [i >= 1] on: every digit is kept, and a group
    symbol is added at each index that is a multiple of [g0]. *)
Lemma format_int_part_go_spec (g0 : Z) (sym : str) (c : char) :
  0 < g0 ->
  forall (l : str) (i : Z) (res : str), 1 <= i ->
  exists r,
    format_int_part_go l i g0 sym res = Ok r
    /\ len r = len res + len l
               + ((i + len l - 1) / g0 - (i - 1) / g0) * len sym
    /\ (sym = [c] ->
        filter (fun x => negb (x =? c)) r
        = rev (filter (fun x => negb (x =? c)) l)
          ++ filter (fun x => negb (x =? c)) res).
Proof.
  intros Hg. induction l as [|dgt l IH]; intros i res Hi.
  - exists res. simpl. repeat split.
    + unfold len. simpl. replace (i + 0 - 1) with (i - 1) by lia. lia.
  - cbn [format_int_part_go].
    replace (i =? 0) with false by (symmetry; apply Z.eqb_neq; lia).
    replace (g0 =? 0) with false by (symmetry; apply Z.eqb_neq; lia).
    assert (Hlen : len (dgt :: l) = len l + 1)
      by (unfold len; simpl List.length; lia).
    pose proof (div_step i g0 Hg Hi) as Hstep.
    destruct (i mod g0 =? 0) eqn:Em; cbn [bind].
    + destruct (IH (i + 1) (dgt :: sym ++ res) ltac:(lia)) as [r [Hr [Hl Hf]]].
      exists r. split; [exact Hr|]. split.
      * rewrite Hl, Hlen.
        assert (len (dgt :: sym ++ res) = len res + len sym + 1).
        { unfold len. simpl List.length. rewrite length_app. lia. }
        replace (i + 1 + len l - 1) with (i + (len l + 1) - 1) by lia.
        replace (i + 1 - 1) with i by lia. lia.
      * intros Hs. rewrite (Hf Hs). subst sym. simpl.
        rewrite Z.eqb_refl. simpl.
        destruct (dgt =? c); simpl; [reflexivity|].
        rewrite <- app_assoc. reflexivity.
    + destruct (IH (i + 1) (dgt :: res) ltac:(lia)) as [r [Hr [Hl Hf]]].
      exists r. split; [exact Hr|]. split.
      * rewrite Hl, Hlen.
        assert (len (dgt :: res) = len res + 1)
          by (unfold len; simpl List.length; lia).
        replace (i + 1 + len l - 1) with (i + (len l + 1) - 1) by lia.
        replace (i + 1 - 1) with i by lia. lia.
      * intros Hs. rewrite (Hf Hs). simpl.
        destruct (dgt =? c); simpl; [reflexivity|].
        rewrite <- app_assoc. reflexivity.
Qed.

(** X8.  With a positive [grouping[0]], [_format_int_part] returns the
    digits with [(n - 1) // grouping[0]] group symbols added, [n] being
    the number of digits; when the symbol is one character that is not
    among the digits, removing it gives the digits back.  The second
    component of the grouping plays no part. *)
Theorem format_int_part_spec (value : str) (g0 g1 : Z) (sym : str)
    (c : char) :
  0 < g0 ->
  value <> [] ->
  exists r,
    _format_int_part value (g0, g1) sym = Ok r
    /\ len r = len value + ((len value - 1) / g0) * len sym
    /\ (sym = [c] -> existsb (Z.eqb c) value = false ->
        filter (fun x => negb (x =? c)) r = value).
Proof.
  intros Hg Hv. unfold _format_int_part. cbn [fst].
  destruct (rev value) as [|dgt l] eqn:Er.
  { exfalso. apply Hv. rewrite <- (rev_involutive value), Er. reflexivity. }
  cbn [format_int_part_go]. change (0 =? 0) with true. cbv iota.
  cbn [bind]. change (0 + 1) with 1.
  destruct (format_int_part_go_spec g0 sym c Hg l 1 [dgt] ltac:(lia))
    as [r [Hr [Hl Hf]]].
  exists r. split; [exact Hr|].
  assert (Hlen : len value = len l + 1).
  { unfold len. rewrite <- (length_rev value), Er. simpl List.length. lia. }
  split.
  - rewrite Hl, Hlen. change (len [dgt]) with 1.
    replace (1 + len l - 1) with (len l) by lia.
    replace (len l + 1 - 1) with (len l) by lia.
    change (1 - 1) with 0. rewrite Z.div_0_l by lia. lia.
  - intros Hs Hc. rewrite (Hf Hs).
    assert (Hall : filter (fun x => negb (x =? c)) value = value).
    { clear -Hc. induction value as [|x v IH]; [reflexivity|].
      simpl in *. apply orb_false_iff in Hc. destruct Hc as [Hx Hc].
      rewrite Z.eqb_sym in Hx. rewrite Hx. simpl. rewrite IH by exact Hc.
      reflexivity. }
    assert (Hval : value = rev l ++ [dgt]).
    { rewrite <- (rev_involutive value), Er. reflexivity. }
    rewrite <- Hall. rewrite Hval.
    rewrite filter_app, filter_rev. reflexivity.
Qed.

Lemma format_int_part_spec_witness :
  exists r,
    _format_int_part (u "1234567") (3, 2) (u ",") = Ok r
    /\ len r = 7 + ((7 - 1) / 3) * 1
    /\ (u "," = [44] -> existsb (Z.eqb 44) (u "1234567") = false ->
        filter (fun x => negb (x =? 44)) r = u "1234567").
Proof.
  apply (format_int_part_spec (u "1234567") 3 2 (u ",") 44).
  - lia.
  - discriminate.
Defined.

(** X9.  With [grouping[0] = 0], which [parse_grouping] gives for a
    number part that ends in a comma, [_format_int_part] raises
    [ZeroDivisionError] as soon as the value has two digits. *)
Theorem format_int_part_zero_group (value : str) (g1 : Z) (sym : str) :
  (2 <= List.length value)%nat ->
  _format_int_part value (0, g1) sym = Raise ZeroDivisionError.
Proof.
  intros H. unfold _format_int_part. cbn [fst].
  rewrite <- length_rev in H.
  destruct (rev value) as [|a [|b l]]; simpl in H; try lia.
  reflexivity.
Qed.

Lemma format_int_part_zero_group_witness :
  parse_grouping (u "#,") = (0, 0)
  /\ _format_int_part (u "12") (0, 0) (u ",") = Raise ZeroDivisionError.
Proof.
  split; [vm_compute; reflexivity|].
  apply format_int_part_zero_group. simpl. lia.
Defined.

(** ** [parse_grouping] *)

Lemma rfind_from_absent (c : char) (s : str) :
  existsb (Z.eqb c) s = false ->
  forall i best, rfind_from s [c] i best = best.
Proof.
  induction s as [|x s IH]; simpl; intros H i best; [reflexivity|].
  apply orb_false_iff in H. destruct H as [Hx Hs].
  rewrite Hx. simpl. apply IH. exact Hs.
Qed.

Lemma rfind_from_last (c : char) (a b : str) :
  existsb (Z.eqb c) b = false ->
  forall i best, rfind_from (a ++ c :: b) [c] i best = i + len a.
Proof.
  intros Hb. induction a as [|x a IH]; intros i best.
  - simpl. rewrite Z.eqb_refl, startswith_nil. simpl.
    rewrite (rfind_from_absent c b Hb). unfold len. simpl. lia.
  - cbn [app rfind_from]. rewrite IH. unfold len. simpl List.length. lia.
Qed.

Lemma slice_head (a b : str) (c : char) :
  slice (a ++ c :: b) None (Some (- len b - 1)) = a.
Proof.
  unfold slice, clamp_index, len. rewrite length_app. simpl List.length.
  replace (- Z.of_nat (List.length b) - 1 <? 0) with true
    by (symmetry; apply Z.ltb_lt; lia).
  rewrite Z.sub_0_r. simpl skipn.
  replace (Z.to_nat (Z.max 0 (Z.of_nat (List.length a + S (List.length b))
                              + (- Z.of_nat (List.length b) - 1))))
    with (List.length a) by lia.
  rewrite firstn_app, firstn_all, Nat.sub_diag. simpl.
  apply app_nil_r.
Qed.

(** X10.  [parse_grouping] returns (1000, 1000) for a string without a
    comma; otherwise the first size is the number of characters after the
    last comma and the second the number of characters between the last
    two commas, or the first size again when there is one comma only. *)
Theorem parse_grouping_spec (a c b : str) :
  existsb (Z.eqb 44) c = false ->
  existsb (Z.eqb 44) b = false ->
  parse_grouping b = (1000, 1000)
  /\ parse_grouping (c ++ 44 :: b) = (len b, len b)
  /\ parse_grouping (a ++ 44 :: c ++ 44 :: b) = (len b, len c).
Proof.
  intros Hc Hb. unfold parse_grouping, rfind. change (u ",") with [44].
  split; [|split].
  - rewrite (rfind_from_absent 44 b Hb). reflexivity.
  - rewrite (rfind_from_last 44 c b Hb).
    replace (0 + len c =? -1) with false
      by (symmetry; apply Z.eqb_neq; unfold len; lia).
    assert (Hw : len (c ++ 44 :: b) = len c + len b + 1).
    { unfold len. rewrite length_app. simpl List.length. lia. }
    rewrite Hw.
    replace (len c + len b + 1 - (0 + len c) - 1) with (len b) by lia.
    rewrite slice_head, (rfind_from_absent 44 c Hc). reflexivity.
  - replace (a ++ 44 :: c ++ 44 :: b) with ((a ++ 44 :: c) ++ 44 :: b)
      by (rewrite <- app_assoc; reflexivity).
    rewrite (rfind_from_last 44 (a ++ 44 :: c) b Hb).
    replace (0 + len (a ++ 44 :: c) =? -1) with false
      by (symmetry; apply Z.eqb_neq; unfold len; lia).
    assert (Hw : len ((a ++ 44 :: c) ++ 44 :: b)
                 = len (a ++ 44 :: c) + len b + 1).
    { unfold len. rewrite length_app. simpl List.length. lia. }
    rewrite Hw.
    replace (len (a ++ 44 :: c) + len b + 1 - (0 + len (a ++ 44 :: c)) - 1)
      with (len b) by lia.
    rewrite slice_head, (rfind_from_last 44 a c Hc).
    replace (0 + len a =? -1) with false
      by (symmetry; apply Z.eqb_neq; unfold len; lia).
    f_equal.
    assert (len (a ++ 44 :: c) = len a + len c + 1).
    { unfold len. rewrite length_app. simpl List.length. lia. }
    lia.
Qed.

Lemma parse_grouping_spec_witness :
  parse_grouping (u "##0") = (1000, 1000)
  /\ parse_grouping (u "##" ++ 44 :: u "##0") = (3, 3)
  /\ parse_grouping (u "#" ++ 44 :: u "##" ++ 44 :: u "##0") = (3, 2).
Proof.
  apply (parse_grouping_spec (u "#") (u "##") (u "##0")); reflexivity.
Defined.

(** ** [parse_pattern] *)

Lemma split_go_char_length (c : char) (s : str) :
  forall cur,
  List.length (split_go [c] 0 cur s) = S (count_occ Z.eq_dec s c).
Proof.
  induction s as [|x s IH]; intros cur; [reflexivity|].
  cbn [split_go List.length Nat.sub startswith].
  rewrite startswith_nil, andb_true_r.
  destruct (Z.eqb_spec c x) as [E|E].
  - subst x. rewrite count_occ_cons_eq by reflexivity. simpl. rewrite IH.
    reflexivity.
  - rewrite count_occ_cons_neq by congruence. apply IH.
Qed.

Lemma existsb_char_app (c : char) (a b : str) :
  existsb (Z.eqb c) (a ++ c :: b) = true.
Proof.
  rewrite existsb_app. simpl. rewrite Z.eqb_refl, orb_true_r. reflexivity.
Qed.

(** X11.  A pattern with more than one semicolon is rejected with
    [ValueError], raised by the unpacking of [pattern.split(';')]. *)
Theorem parse_pattern_two_semicolons (a b c : str) :
  parse_pattern (FStr (a ++ u ";" ++ b ++ u ";" ++ c))
  = Raise (ValueError (u "wrong number of values to unpack")).
Proof.
  unfold parse_pattern, parse_pattern_str. change (u ";") with [59].
  rewrite contains_char.
  cbn [app]. rewrite existsb_char_app. unfold split.
  cbn [bind].
  pose proof (split_go_char_length 59 (a ++ 59 :: b ++ 59 :: c) []) as Hl.
  rewrite !count_occ_app in Hl. simpl in Hl.
  rewrite count_occ_app in Hl. simpl in Hl.
  match goal with
  | |- context [unpack2 ?l] =>
    remember (S (count_occ Z.eq_dec a 59
                 + S (count_occ Z.eq_dec b 59 + S (count_occ Z.eq_dec c 59))))
      as k eqn:Ek;
    assert (Hl' : List.length l = k) by (rewrite Ek; exact Hl);
    destruct l as [|p1 [|p2 [|p3 rest]]]; simpl in Hl'; try lia
  end.
  reflexivity.
Qed.

Lemma number_start_token (c : char) :
  number_start c = true -> NUMBER_TOKEN c = true.
Proof.
  unfold number_start, PREFIX_END, NUMBER_TOKEN. rewrite negb_involutive.
  intros H. rewrite H. reflexivity.
Qed.

Lemma number_start_not_quote (c : char) :
  number_start c = true -> (c =? 39) = false.
Proof.
  intros H. destruct (Z.eqb_spec c 39) as [E|E]; [|reflexivity].
  subst c. discriminate H.
Qed.

Lemma match_prefix_number (fuel : nat) (c : char) (s : str) :
  number_start c = true -> match_prefix (S fuel) (c :: s) = ([], c :: s).
Proof.
  intros H. cbn [match_prefix].
  rewrite (number_start_not_quote c H). cbn [andb].
  unfold number_start in H. apply negb_true_iff in H. rewrite H.
  reflexivity.
Qed.

Lemma span_app (p : char -> bool) (n x : str) :
  forallb p n = true ->
  match x with [] => True | c :: _ => p c = false end ->
  span p (n ++ x) = (n, x).
Proof.
  intros Hn Hx. induction n as [|c n IH].
  - destruct x as [|c x]; [reflexivity|]. simpl. rewrite Hx. reflexivity.
  - simpl in *. apply andb_true_iff in Hn. destruct Hn as [Hc Hn].
    rewrite Hc, (IH Hn). reflexivity.
Qed.

Lemma span_all (p : char -> bool) (x : str) :
  forallb p x = true -> span p x = (x, []).
Proof.
  intros H. rewrite <- (app_nil_r x) at 1. apply span_app; [exact H|exact I].
Qed.

(** The match of [number_re] on a number part followed by text. *)
Lemma number_re_match_number (c : char) (n x : str) :
  forallb number_start (c :: n) = true ->
  match x with [] => True | y :: _ => NUMBER_TOKEN y = false end ->
  forallb (fun y => negb (y =? 10)) x = true ->
  number_re_match ((c :: n) ++ x) = ([], c :: n, x, []).
Proof.
  intros Hn Hx Hnl. unfold number_re_match.
  cbn [app List.length].
  assert (Hc : number_start c = true).
  { simpl in Hn. apply andb_true_iff in Hn. apply Hn. }
  rewrite (match_prefix_number _ c (n ++ x) Hc).
  change (c :: n ++ x) with ((c :: n) ++ x).
  assert (Htok : forallb NUMBER_TOKEN (c :: n) = true).
  { clear -Hn. induction (c :: n) as [|y l IH]; [reflexivity|].
    simpl in *. apply andb_true_iff in Hn. destruct Hn as [Hy Hl].
    rewrite (number_start_token y Hy), (IH Hl). reflexivity. }
  rewrite (span_app NUMBER_TOKEN (c :: n) x Htok Hx).
  cbv beta iota.
  rewrite (span_all (fun c0 : char => negb (c0 =? 10)) x Hnl). reflexivity.
Qed.

Lemma extract_affix_step (acc : str * str) (part : str) :
  (let '(prefix, suffix) := acc in
   match part with
   | [] => (prefix, suffix)
   | _ :: _ =>
     if (find part (u "0") =? -1) && (find part (u "#") =? -1)
        && (find part (u ",") =? -1) && (find part (u ".") =? -1)
        && (find part (u "E") =? -1)
     then match prefix with
          | _ :: _ => (prefix, part)
          | [] => (part, suffix)
          end
     else (prefix, suffix)
   end)
  = if is_affix part
    then match fst acc with
         | _ :: _ => (fst acc, part)
         | [] => (part, snd acc)
         end
    else acc.
Proof.
  destruct acc as [prefix suffix]. unfold is_affix.
  destruct part as [|y part]; [reflexivity|]. cbn [fst snd].
  destruct (_ && _); reflexivity.
Qed.

Lemma extract_affix_number (c : char) (n x : str) :
  forallb number_start (c :: n) = true ->
  match x with [] => True | y :: _ => NUMBER_TOKEN y = false end ->
  forallb (fun y => negb (y =? 10)) x = true ->
  is_affix (c :: n) = false ->
  is_affix x = true ->
  extract_affix ((c :: n) ++ x) = (x, []).
Proof.
  intros Hn Hx Hnl Han Hax.
  unfold extract_affix.
  match goal with |- fold_left ?f _ _ = _ => set (g := f) end.
  assert (Hg : forall acc part,
             g acc part = if is_affix part
                          then match fst acc with
                               | _ :: _ => (fst acc, part)
                               | [] => (part, snd acc)
                               end
                          else acc)
    by (intros [pre suf] part; exact (extract_affix_step (pre, suf) part)).
  clearbody g.
  assert (Hsplit : number_re_split ((c :: n) ++ x)
                   = [[]; []; c :: n; x; []; []; []; []; []]).
  { unfold number_re_split. cbn [app List.length number_re_split_go].
    change (c :: n ++ x) with ((c :: n) ++ x).
    rewrite (number_re_match_number c n x Hn Hx Hnl).
    destruct (List.length (n ++ x)); reflexivity. }
  rewrite Hsplit. cbn [fold_left].
  rewrite !Hg. change (is_affix []) with false. cbv iota.
  rewrite Han, Hax. reflexivity.
Qed.

(** X12.  When a pattern is a number part followed by literal text (as
    [0K], [#,##0%] or [#,##0.00 ¤]), and [parse_pattern] accepts it, the
    text is stored as the positive prefix, with a minus sign before it
    as the negative prefix, and both suffixes are empty: the text that
    follows the number in the pattern comes before the number in what
    [apply] renders.  The number part consists of digits, [@], [#], [.]
    and [,] and holds one of [0 # , .]; the text does not start with a
    number character and holds none of [0 # , . E], no newline and no
    semicolon. *)
Theorem parse_pattern_suffix_as_prefix (c : char) (n x : str)
    (p : NumberPattern) :
  forallb number_start (c :: n) = true ->
  match x with [] => True | y :: _ => NUMBER_TOKEN y = false end ->
  forallb (fun y => negb (y =? 10)) x = true ->
  is_affix (c :: n) = false ->
  is_affix x = true ->
  contains ((c :: n) ++ x) (u ";") = false ->
  parse_pattern (FStr ((c :: n) ++ x)) = Ok p ->
  prefix p = (x, u "-" ++ x) /\ suffix p = ([], [])
  /\ number_pattern p = Some (c :: n).
Proof.
  intros Hn Hx Hnl Han Hax Hsemi.
  unfold parse_pattern, parse_pattern_str. rewrite Hsemi. cbn [bind].
  rewrite (extract_affix_number c n x Hn Hx Hnl Han Hax).
  rewrite (number_re_match_number c n x Hn Hx Hnl).
  cbv beta iota zeta. unfold bind. intros H.
  repeat match type of H with
         | match ?t with _ => _ end = _ => destruct t; try discriminate
         | (let '(_, _) := ?t in _) = _ => destruct t
         end.
  all: injection H as <-; repeat split.
Qed.

Lemma parse_pattern_suffix_as_prefix_witness :
  exists p,
    parse_pattern (FStr (u "#,##0%")) = Ok p
    /\ prefix p = (u "%", u "-%") /\ suffix p = ([], [])
    /\ number_pattern p = Some (u "#,##0").
Proof.
  eexists. split; [vm_compute; reflexivity|].
  apply (parse_pattern_suffix_as_prefix 35 (u ",##0") (u "%"));
    vm_compute; reflexivity.
Defined.

(** ** [read_mo] on a truncated file *)

Lemma unpack_wrong_length (le : bool) (n : nat) (b : bytes) :
  List.length b <> (4 * n)%nat -> unpack le n b = Raise StructError.
Proof.
  intros H. unfold unpack.
  destruct (Nat.eqb_spec (List.length b) (4 * n)); [contradiction|reflexivity].
Qed.

Lemma slice_front_length (buf : bytes) (k : Z) :
  0 <= k ->
  List.length (slice buf None (Some k))
  = Nat.min (Z.to_nat k) (List.length buf).
Proof.
  intros Hk. unfold slice, clamp_index, len.
  replace (k <? 0) with false by (symmetry; apply Z.ltb_ge; lia).
  simpl skipn. rewrite length_firstn. lia.
Qed.

(** X13.  A buffer of fewer than 4 octets, and a buffer of fewer than
    20 octets that starts with one of the two magic numbers, make
    [read_mo] raise the error of [struct.unpack], not [IOError]. *)
Theorem read_mo_truncated (buf : bytes) :
  (List.length buf < 4)%nat
  \/ ((List.length buf < 20)%nat
      /\ exists b0 b1 b2 b3 rest,
           buf = b0 :: b1 :: b2 :: b3 :: rest
           /\ (u32_le b0 b1 b2 b3 = LE_MAGIC
               \/ u32_le b0 b1 b2 b3 = BE_MAGIC)) ->
  read_mo buf = Raise StructError.
Proof.
  intros [H | [H [b0 [b1 [b2 [b3 [rest [E Hm]]]]]]]]; unfold read_mo.
  - rewrite unpack_wrong_length; [reflexivity|].
    rewrite slice_front_length by lia. lia.
  - subst buf. simpl List.length in H.
    assert (Hs4 : slice (b0 :: b1 :: b2 :: b3 :: rest) None (Some 4)
                  = [b0; b1; b2; b3]).
    { unfold slice, clamp_index, len. simpl List.length.
      change (4 <? 0) with false. cbv iota.
      replace (Z.to_nat (Z.min 4 (Z.of_nat (S (S (S (S (List.length rest))))))
                         - 0)) with 4%nat by lia.
      reflexivity. }
    rewrite Hs4. cbn [unpack List.length Nat.eqb Nat.mul Nat.add bind
                      unpack_words nth].
    assert (Hrest : forall le,
               unpack le 4 (slice (b0 :: b1 :: b2 :: b3 :: rest)
                                  (Some 4) (Some 20))
               = Raise StructError).
    { intros le. apply unpack_wrong_length.
      unfold slice, clamp_index, len. simpl List.length.
      change (4 <? 0) with false. change (20 <? 0) with false. cbv iota.
      rewrite length_firstn, length_skipn. simpl List.length. lia. }
    destruct Hm as [Hm | Hm]; rewrite Hm.
    + change (LE_MAGIC =? LE_MAGIC) with true. cbv iota. cbn [bind].
      rewrite Hrest. reflexivity.
    + change (BE_MAGIC =? LE_MAGIC) with false.
      change (BE_MAGIC =? BE_MAGIC) with true. cbv iota. cbn [bind].
      rewrite Hrest. reflexivity.
Qed.

Lemma read_mo_truncated_witness :
  read_mo [] = Raise StructError
  /\ read_mo [222; 18; 4; 149; 0; 0; 0; 0] = Raise StructError.
Proof.
  split; apply read_mo_truncated.
  - left. simpl. lia.
  - right. split; [simpl; lia|].
    exists 222, 18, 4, 149, [0; 0; 0; 0]. split; [reflexivity|].
    left. reflexivity.
Defined.

(** ** The header that [write_mo] writes *)

Lemma u32_le_pack (v : Z) :
  0 <= v < 4294967296 ->
  u32_le (v mod 256) ((v / 256) mod 256) ((v / 65536) mod 256)
         ((v / 16777216) mod 256) = v.
Proof.
  intros H. unfold u32_le. Z.div_mod_to_equations. lia.
Qed.

Lemma read_header_layout (w2 w4 : Z) (tail : bytes) :
  0 <= w2 < 4294967296 ->
  0 <= w4 < 4294967296 ->
  read_header ([222; 18; 4; 149] ++ [0; 0; 0; 0] ++ pack_u32_le w2
               ++ [28; 0; 0; 0] ++ pack_u32_le w4 ++ tail)
  = Ok (true, [0; w2; 28; w4]).
Proof.
  intros H2 H4. unfold read_header, pack_u32_le. cbn [app].
  match goal with |- context [slice ?b None (Some 4)] => set (buf := b) end.
  assert (Hs4 : slice buf None (Some 4) = [222; 18; 4; 149]).
  { unfold slice, clamp_index, len, buf. simpl List.length.
    change (4 <? 0) with false. cbv iota.
    match goal with
    | |- firstn (Z.to_nat ?k) _ = _ => replace (Z.to_nat k) with 4%nat by lia
    end.
    reflexivity. }
  assert (Hs20 : slice buf (Some 4) (Some 20)
                 = [0; 0; 0; 0; w2 mod 256; (w2 / 256) mod 256;
                    (w2 / 65536) mod 256; (w2 / 16777216) mod 256;
                    28; 0; 0; 0; w4 mod 256; (w4 / 256) mod 256;
                    (w4 / 65536) mod 256; (w4 / 16777216) mod 256]).
  { unfold slice, clamp_index, len, buf. simpl List.length.
    change (4 <? 0) with false. change (20 <? 0) with false. cbv iota.
    match goal with
    | |- firstn (Z.to_nat ?k) (skipn (Z.to_nat ?j) _) = _ =>
      replace (Z.to_nat k) with 16%nat by lia;
      replace (Z.to_nat j) with 4%nat by lia
    end.
    reflexivity. }
  rewrite Hs4.
  change (unpack true 1 [222; 18; 4; 149]) with (Ok [LE_MAGIC]).
  cbn [bind nth]. change (LE_MAGIC =? LE_MAGIC) with true. cbv iota.
  cbn [bind]. rewrite Hs20.
  cbn [unpack List.length Nat.eqb Nat.mul Nat.add bind unpack_words].
  rewrite (u32_le_pack w2 H2), (u32_le_pack w4 H4). reflexivity.
Qed.

Lemma collect_count (use_fuzzy : bool) (messages : list Message) :
  forall ids strs offsets ids' strs' offsets',
  collect use_fuzzy messages ids strs offsets = Ok (ids', strs', offsets') ->
  List.length offsets'
  = (List.length offsets + List.length (filter (written use_fuzzy) messages))%nat.
Proof.
  induction messages as [|m rest IH]; intros ids strs offs ids' strs' offs' H.
  - simpl in H. injection H as <- <- <-. simpl. lia.
  - cbn [collect] in H. cbn [filter]. unfold written at 1.
    destruct (negb (id_truthy (id m)) || (negb use_fuzzy && fuzzy m)
              || negb (string_truthy (string m))).
    + simpl. apply (IH _ _ _ _ _ _ H).
    + simpl negb. cbv iota. unfold bind in H.
      destruct (encode_id m) as [i|e]; [|discriminate].
      destruct (encode_string m) as [s|e]; [|discriminate].
      rewrite (IH _ _ _ _ _ _ H). rewrite length_app. simpl. lia.
Qed.

Lemma flat_map_pair_length {A} (f : A -> Z * Z) (l : list A) :
  List.length (flat_map (fun x => [fst (f x); snd (f x)]) l)
  = (2 * List.length l)%nat.
Proof. induction l as [|x l IH]; simpl; lia. Qed.

(** X14.  Whatever [write_mo] writes starts with a header that
    [read_mo] decodes as little endian, version 0, with the number [n]
    of the messages that are not skipped (empty id, fuzzy without
    [use_fuzzy], empty translation), the key table at octet 28 and the
    value table at octet [28 + 2 n]: for one message or more the second
    table is placed inside the first, whose entries take 8 octets. *)
Theorem write_mo_header (message_sort : list Message -> list Message)
    (catalog : Catalog) (use_fuzzy : bool) (out : bytes) :
  write_mo message_sort catalog use_fuzzy = Ok out ->
  read_header out
  = Ok (true,
        [0; len (filter (written use_fuzzy) (message_sort catalog));
         28;
         28 + 2 * len (filter (written use_fuzzy) (message_sort catalog))]).
Proof.
  unfold write_mo. intros H.
  destruct (collect use_fuzzy (message_sort catalog) [] [] [])
    as [[[ids strs] offsets]|e] eqn:Ec; [|discriminate].
  pose proof (collect_count _ _ _ _ _ _ _ _ Ec) as Hn. simpl in Hn.
  cbn [bind] in H.
  set (ks := flat_map _ offsets) in H.
  set (vs := flat_map _ offsets) in H.
  assert (Hk : List.length ks = (2 * List.length offsets)%nat).
  { unfold ks. generalize (7 * 4 + 16 * len offsets). intros k0. clear.
    induction offsets as [|[[[a b] c] d] l IH]; simpl; lia. }
  assert (Hv : List.length vs = (2 * List.length offsets)%nat).
  { unfold vs. generalize (7 * 4 + 16 * len offsets + len ids). intros k0.
    clear. induction offsets as [|[[[a b] c] d] l IH]; simpl; lia. }
  assert (Hlen : len (ks ++ vs) = 4 * len offsets).
  { unfold len. rewrite length_app, Hk, Hv. lia. }
  rewrite Hlen in H.
  replace (4 * len offsets / 4) with (len offsets) in H
    by (rewrite Z.mul_comm, Z.div_mul; lia).
  replace (4 * len offsets / 2) with (2 * len offsets) in H
    by (replace (4 * len offsets) with (2 * len offsets * 2) by lia;
        rewrite Z.div_mul; lia).
  change (pack_I LE_MAGIC) with (Ok [222; 18; 4; 149]) in H.
  change (pack_i 0) with (Ok [0; 0; 0; 0]) in H.
  change (pack_i (7 * 4)) with (Ok [28; 0; 0; 0]) in H.
  cbn [bind] in H. unfold pack_i in H.
  assert (Hpos : 0 <= len offsets) by (unfold len; lia).
  destruct ((-2147483648 <=? len offsets) && (len offsets <? 2147483648))
    eqn:E2; [|discriminate].
  cbn [bind] in H.
  destruct ((-2147483648 <=? 7 * 4 + 2 * len offsets)
            && (7 * 4 + 2 * len offsets <? 2147483648)) eqn:E4;
    [|discriminate].
  cbn [bind] in H.
  destruct (array_I_tobytes (ks ++ vs)) as [table|e]; [|discriminate].
  cbn [bind] in H. injection H as <-.
  apply andb_true_iff in E2, E4.
  destruct E2 as [_ E2]. destruct E4 as [_ E4].
  apply Z.ltb_lt in E2, E4.
  rewrite (Z.mod_small (len offsets)) by lia.
  rewrite (Z.mod_small (7 * 4 + 2 * len offsets)) by lia.
  assert (Hcount : len (filter (written use_fuzzy) (message_sort catalog))
                   = len offsets) by (unfold len; lia).
  rewrite Hcount.
  replace (28 + 2 * len offsets) with (7 * 4 + 2 * len offsets) by lia.
  apply (read_header_layout (len offsets) (7 * 4 + 2 * len offsets)
           ([0; 0; 0; 0; 0; 0; 0; 0] ++ table ++ ids ++ strs)); lia.
Qed.

Lemma write_mo_header_witness :
  exists out,
    write_mo (fun l => l) [message_foo] false = Ok out
    /\ read_header out = Ok (true, [0; 1; 28; 30]).
Proof.
  eexists. split; [vm_compute; reflexivity|].
  apply (write_mo_header (fun l => l) [message_foo] false).
  vm_compute. reflexivity.
Defined.

(** ** [escape] and [unescape] *)

Lemma replace_char (s : str) (c : char) (new : str) :
  replace s [c] new = flat_map (fun x => if c =? x then new else [x]) s.
Proof.
  unfold replace.
  induction s as [|x s IH]; [reflexivity|].
  cbn [replace_go startswith flat_map].
  destruct (c =? x); cbn [andb].
  - change (List.length [c] - 1)%nat with 0%nat. rewrite IH.
    destruct s; reflexivity.
  - rewrite IH. reflexivity.
Qed.

Lemma flat_map_flat_map {A B C} (f : A -> list B) (g : B -> list C)
    (l : list A) :
  flat_map g (flat_map f l) = flat_map (fun x => flat_map g (f x)) l.
Proof.
  induction l as [|x l IH]; [reflexivity|].
  simpl. rewrite flat_map_app, IH. reflexivity.
Qed.

Lemma escape_chars (s : str) :
  escape s = [34] ++ flat_map escape_char s ++ [34].
Proof.
  unfold escape. do 2 f_equal.
  change (u "\") with [92]. change (u "\\") with [92; 92].
  change (u "\t") with [92; 116]. change (u "\r") with [92; 114].
  change (u "\n") with [92; 110].
  rewrite !replace_char, !flat_map_flat_map.
  apply flat_map_ext. intros c. unfold escape_char.
  destruct (Z.eqb_spec 92 c) as [<-|H92]; [reflexivity|].
  rewrite (proj2 (Z.eqb_neq c 92)) by lia.
  cbn [flat_map app].
  destruct (Z.eqb_spec 9 c) as [<-|H9]; [reflexivity|].
  rewrite (proj2 (Z.eqb_neq c 9)) by lia.
  cbn [flat_map app].
  destruct (Z.eqb_spec 13 c) as [<-|H13]; [reflexivity|].
  rewrite (proj2 (Z.eqb_neq c 13)) by lia.
  cbn [flat_map app].
  destruct (Z.eqb_spec 10 c) as [<-|H10]; [reflexivity|].
  rewrite (proj2 (Z.eqb_neq c 10)) by lia.
  cbn [flat_map app].
  destruct (Z.eqb_spec 34 c) as [<-|H34]; [reflexivity|].
  rewrite (proj2 (Z.eqb_neq c 34)) by lia.
  reflexivity.
Qed.

Lemma slice_inner {A} (a b : A) (x : list A) :
  slice (a :: x ++ [b]) (Some 1) (Some (-1)) = x.
Proof.
  unfold slice, clamp_index, len.
  cbn [List.length]. rewrite length_app. cbn [List.length].
  change (1 <? 0) with false. change (-1 <? 0) with true. cbv iota.
  replace (Z.to_nat (Z.min 1 (Z.of_nat (S (List.length x + 1))))) with 1%nat
    by lia.
  replace (Z.to_nat (Z.max 0 (Z.of_nat (S (List.length x + 1)) + -1)
                     - Z.min 1 (Z.of_nat (S (List.length x + 1)))))
    with (List.length x + 0)%nat by lia.
  cbn [skipn]. rewrite firstn_app_2. simpl. apply app_nil_r.
Qed.

Lemma replace_go_hit (a b : Z) (new t : list Z) :
  replace_go [a; b] new 0 (a :: b :: t) = new ++ replace_go [a; b] new 0 t.
Proof.
  cbn [replace_go startswith]. rewrite !Z.eqb_refl, startswith_nil.
  reflexivity.
Qed.

Lemma replace_go_miss (a b x : Z) (new t : list Z) :
  startswith (x :: t) [a; b] = false ->
  replace_go [a; b] new 0 (x :: t) = x :: replace_go [a; b] new 0 t.
Proof. intros H. cbn [replace_go]. rewrite H. reflexivity. Qed.

Lemma startswith_head (a b x : Z) (t : list Z) :
  a <> x -> startswith (x :: t) [a; b] = false.
Proof.
  intros H. cbn [startswith]. rewrite (proj2 (Z.eqb_neq a x) H). reflexivity.
Qed.

Lemma startswith_second (a b x y : Z) (t : list Z) :
  b <> y -> startswith (x :: y :: t) [a; b] = false.
Proof.
  intros H. cbn [startswith]. rewrite (proj2 (Z.eqb_neq b y) H).
  apply andb_false_r.
Qed.

Ltac escaped_pair IH :=
  cbn [app];
  rewrite replace_go_miss by (apply startswith_second; lia);
  rewrite replace_go_miss by (apply startswith_head; lia);
  rewrite IH; reflexivity.

Lemma unescape_backslashes (s : str) :
  replace_go [92; 92] [92] 0 (flat_map escape_char s)
  = flat_map half_unescaped_char s.
Proof.
  induction s as [|c s IH]; [reflexivity|].
  cbn [flat_map]. unfold escape_char at 1, half_unescaped_char at 1.
  destruct (Z.eqb_spec c 92) as [->|H92].
  { cbn [app]. rewrite replace_go_hit, IH. reflexivity. }
  destruct (Z.eqb_spec c 9) as [->|H9]; [escaped_pair IH|].
  destruct (Z.eqb_spec c 13) as [->|H13]; [escaped_pair IH|].
  destruct (Z.eqb_spec c 10) as [->|H10]; [escaped_pair IH|].
  destruct (Z.eqb_spec c 34) as [->|H34]; [escaped_pair IH|].
  cbn [app].
  rewrite replace_go_miss by (apply startswith_head; lia).
  rewrite IH. reflexivity.
Qed.

Lemma half_unescaped_no_quote (s : str) :
  startswith (flat_map half_unescaped_char s) [34] = false.
Proof.
  destruct s as [|c s]; [reflexivity|].
  cbn [flat_map]. unfold half_unescaped_char at 1.
  destruct (Z.eqb_spec c 92) as [->|H92]; [reflexivity|].
  destruct (Z.eqb_spec c 9) as [->|H9]; [reflexivity|].
  destruct (Z.eqb_spec c 13) as [->|H13]; [reflexivity|].
  destruct (Z.eqb_spec c 10) as [->|H10]; [reflexivity|].
  destruct (Z.eqb_spec c 34) as [->|H34]; [reflexivity|].
  cbn [app startswith].
  rewrite (proj2 (Z.eqb_neq 34 c)) by lia. reflexivity.
Qed.

Lemma unescape_quotes (s : str) :
  replace_go [92; 34] [34] 0 (flat_map half_unescaped_char s)
  = flat_map unescaped_char s.
Proof.
  induction s as [|c s IH]; [reflexivity|].
  cbn [flat_map]. unfold half_unescaped_char at 1, unescaped_char at 1.
  destruct (Z.eqb_spec c 92) as [->|H92].
  { change (92 =? 9) with false. change (92 =? 13) with false.
    change (92 =? 10) with false. cbv iota. cbn [app].
    rewrite replace_go_miss, IH; [reflexivity|].
    pose proof (half_unescaped_no_quote s) as Hq.
    cbn [startswith]. cbn [startswith] in Hq.
    destruct (flat_map half_unescaped_char s) as [|y t]; [reflexivity|].
    rewrite Hq. reflexivity. }
  destruct (Z.eqb_spec c 9) as [->|H9]; [escaped_pair IH|].
  destruct (Z.eqb_spec c 13) as [->|H13]; [escaped_pair IH|].
  destruct (Z.eqb_spec c 10) as [->|H10]; [escaped_pair IH|].
  destruct (Z.eqb_spec c 34) as [->|H34].
  { cbn [app]. rewrite replace_go_hit, IH. reflexivity. }
  cbn [app].
  rewrite replace_go_miss by (apply startswith_head; lia).
  rewrite IH. reflexivity.
Qed.

Lemma unescape_escape_chars (s : str) :
  unescape (escape s) = flat_map unescaped_char s.
Proof.
  rewrite escape_chars. unfold unescape.
  change ([34] ++ flat_map escape_char s ++ [34])
    with (34 :: flat_map escape_char s ++ [34]).
  rewrite slice_inner.
  change (u "\\") with [92; 92]. change (u "\") with [92].
  unfold replace.
  rewrite unescape_backslashes. apply unescape_quotes.
Qed.

(** X15.  The five replacements of [escape], one after the other, act
    as one substitution on each character: the result is the string
    between two quotes with every backslash doubled, tab, carriage
    return and line feed written as backslash and letter, and every
    quote behind a backslash. *)
Theorem escape_spec (s : str) :
  escape s = [34] ++ flat_map escape_char s ++ [34].
Proof. apply escape_chars. Qed.

Lemma escaped_no_control (s : str) (c : char) :
  In c (flat_map escape_char s) -> is_control c = false.
Proof.
  intros H. apply in_flat_map in H. destruct H as [x [_ H]].
  unfold escape_char in H. unfold is_control.
  destruct (Z.eqb_spec x 92); [destruct H as [<-|[<-|[]]]; reflexivity|].
  destruct (Z.eqb_spec x 9); [destruct H as [<-|[<-|[]]]; reflexivity|].
  destruct (Z.eqb_spec x 13); [destruct H as [<-|[<-|[]]]; reflexivity|].
  destruct (Z.eqb_spec x 10); [destruct H as [<-|[<-|[]]]; reflexivity|].
  destruct (Z.eqb_spec x 34); [destruct H as [<-|[<-|[]]]; reflexivity|].
  destruct H as [<-|[]].
  rewrite (proj2 (Z.eqb_neq x 9)), (proj2 (Z.eqb_neq x 13)),
    (proj2 (Z.eqb_neq x 10)) by assumption.
  reflexivity.
Qed.

(** X16.  The result of [escape] holds no tab, carriage return or line
    feed, whatever the string. *)
Theorem escape_no_control (s : str) (c : char) :
  In c (escape s) -> is_control c = false.
Proof.
  rewrite escape_chars. intros H.
  apply in_app_or in H. destruct H as [H|H].
  { destruct H as [<-|[]]. reflexivity. }
  apply in_app_or in H. destruct H as [H|H].
  - exact (escaped_no_control s c H).
  - destruct H as [<-|[]]. reflexivity.
Qed.

Lemma escape_no_control_witness :
  In 116 (escape [97; 9]) /\ is_control 116 = false.
Proof.
  assert (H : In 116 (escape [97; 9])).
  { vm_compute. right. right. right. left. reflexivity. }
  split; [exact H|].
  apply (escape_no_control [97; 9] 116 H).
Defined.

(** X17.  [unescape] gives back the string that [escape] was given if
    and only if the string holds no tab, carriage return or line feed:
    [unescape] reverses the escaping of backslash and quote only. *)
Theorem unescape_escape (s : str) :
  unescape (escape s) = s
  <-> forallb (fun c => negb (is_control c)) s = true.
Proof.
  rewrite unescape_escape_chars.
  induction s as [|c s IH]; [split; reflexivity|].
  cbn [flat_map forallb]. unfold unescaped_char at 1, is_control at 1.
  destruct (Z.eqb_spec c 9) as [->|H9].
  { split; discriminate. }
  destruct (Z.eqb_spec c 13) as [->|H13].
  { split; discriminate. }
  destruct (Z.eqb_spec c 10) as [->|H10].
  { split; discriminate. }
  cbn [orb negb andb app]. rewrite <- IH. split.
  - intros H. injection H as H. exact H.
  - intros H. rewrite H. reflexivity.
Qed.

(** ** [pathmatch] *)

Lemma split_go_head (sep : list Z) (s : list Z) :
  forall skip cur, exists x rest,
    split_go sep skip cur s = (rev cur ++ x) :: rest.
Proof.
  induction s as [|c s IH]; intros skip cur.
  - exists [], []. cbn. rewrite app_nil_r. reflexivity.
  - cbn [split_go]. destruct skip as [|k]; [|apply IH].
    destruct (startswith (c :: s) sep).
    + exists []. eexists. rewrite app_nil_r. reflexivity.
    + destruct (IH 0%nat (c :: cur)) as [x [rest E]].
      exists (c :: x), rest. rewrite E. cbn [rev]. rewrite <- app_assoc.
      reflexivity.
Qed.

Lemma startswith_longer (s : list Z) (a b : Z) (x : list Z) :
  startswith s [a; b] = false -> startswith s (a :: b :: x) = false.
Proof.
  destruct s as [|c [|d s]]; cbn [startswith]; try reflexivity.
  - intros _. apply andb_false_r.
  - rewrite startswith_nil, andb_true_r. intros H.
    rewrite andb_assoc, H. reflexivity.
Qed.

(** X18.  For a pattern that does not start with [^] and holds [**],
    [pathmatch] is [False] for every file name that does not itself
    start with the two characters [*/]: the [*/] that is put in front
    of the pattern becomes part of the first literal piece.  So
    [pathmatch('**.py', 'bar.py')] is [False]. *)
Theorem pathmatch_needs_star_slash (sep : str)
    (fnmatch : str -> str -> bool) (pattern filename : str) :
  startswith (replace pattern sep (u "/")) (u "^") = false ->
  contains (replace pattern sep (u "/")) (u "**") = true ->
  startswith (replace filename sep (u "/")) (u "*/") = false ->
  Util.pathmatch sep fnmatch pattern filename = false.
Proof.
  intros Hc Hs Hf. unfold Util.pathmatch. rewrite Hc.
  change (u "*/") with [42; 47] in *. change (u "**") with [42; 42] in *.
  set (p := replace pattern sep (u "/")) in *.
  set (f := replace filename sep (u "/")) in *.
  assert (Hp : contains ([42; 47] ++ p) [42; 42] = true).
  { cbn [app contains]. cbn [startswith]. rewrite Hs.
    change (42 =? 47) with false. rewrite !andb_false_r.
    rewrite orb_true_r. reflexivity. }
  match goal with
  | |- (if ?c then _ else _) = _ =>
    replace c with true by (symmetry; exact Hp)
  end.
  cbn [app split_go startswith].
  change (42 =? 47) with false. change (42 =? 42) with true. cbn [andb].
  destruct (split_go_head [42; 42] p 0%nat [47; 42]) as [x [rest E]].
  rewrite E. cbn [rev app Util.pathmatch_parts].
  change (0 =? 0) with true. cbv iota.
  rewrite (startswith_longer f 42 47 x Hf). reflexivity.
Qed.

Lemma pathmatch_needs_star_slash_witness :
  Util.pathmatch (u "/") (fun _ _ => true) (u "**.py") (u "bar.py") = false
  /\ Util.pathmatch (u "/") (fun _ _ => true) (u "**/templates/*.html")
       (u "templates/index.html") = false.
Proof.
  split; apply pathmatch_needs_star_slash; reflexivity.
Defined.

(** ** [distinct] *)

Section DistinctProperties.

Variable A : Type.
Variable eqb : A -> A -> bool.
Hypothesis eqb_eq : forall x y, eqb x y = true <-> x = y.

Lemma seen_In (item : A) (seen : list A) :
  existsb (eqb item) seen = true <-> In item seen.
Proof.
  rewrite existsb_exists. split.
  - intros [x [Hx E]]. apply eqb_eq in E. subst x. exact Hx.
  - intros H. exists item. split; [exact H|]. apply eqb_eq. reflexivity.
Qed.

Lemma distinct_go_In (l : list A) :
  forall seen x,
    In x (Util.distinct_go A eqb seen l) <-> In x l /\ ~ In x seen.
Proof.
  induction l as [|item rest IH]; intros seen x.
  - simpl. tauto.
  - cbn [Util.distinct_go].
    destruct (existsb (eqb item) seen) eqn:E.
    + apply seen_In in E. rewrite IH. simpl. split.
      * tauto.
      * intros [[->|H] Hn]; [contradiction|tauto].
    + assert (Hn : ~ In item seen).
      { intros H. apply seen_In in H. congruence. }
      simpl. rewrite IH. simpl. split.
      * intros [->|[H1 H2]]; [tauto|]. split; [tauto|]. tauto.
      * intros [[->|H1] H2]; [tauto|].
        destruct (eqb item x) eqn:Ex.
        -- apply eqb_eq in Ex. tauto.
        -- right. split; [exact H1|]. intros [->|H]; [|tauto].
           assert (eqb x x = true) by (apply eqb_eq; reflexivity).
           congruence.
Qed.

Lemma distinct_go_NoDup (l : list A) :
  forall seen, NoDup (Util.distinct_go A eqb seen l).
Proof.
  induction l as [|item rest IH]; intros seen.
  - constructor.
  - cbn [Util.distinct_go]. destruct (existsb (eqb item) seen); [apply IH|].
    constructor; [|apply IH].
    rewrite distinct_go_In. simpl. tauto.
Qed.

Lemma distinct_go_prefix (l1 l2 : list A) :
  forall seen, exists r,
    Util.distinct_go A eqb seen (l1 ++ l2)
    = Util.distinct_go A eqb seen l1 ++ r.
Proof.
  induction l1 as [|item rest IH]; intros seen.
  - eexists. reflexivity.
  - cbn [app Util.distinct_go]. destruct (existsb (eqb item) seen).
    + apply IH.
    + destruct (IH (item :: seen)) as [r E]. exists r. rewrite E.
      reflexivity.
Qed.

End DistinctProperties.

(** X19.  [distinct] yields no item twice, yields exactly the items of
    the iterable, and yields them in the order of their first
    occurrence: what it yields for a prefix of the iterable is a prefix
    of what it yields for the whole. *)
Theorem distinct_spec (A : Type) (eqb : A -> A -> bool) (l : list A) :
  (forall x y, eqb x y = true <-> x = y) ->
  NoDup (Util.distinct A eqb l)
  /\ (forall x, In x (Util.distinct A eqb l) <-> In x l)
  /\ (forall l1 l2, l = l1 ++ l2 ->
        exists r, Util.distinct A eqb l = Util.distinct A eqb l1 ++ r).
Proof.
  intros H. unfold Util.distinct. split; [|split].
  - apply distinct_go_NoDup, H.
  - intros x. rewrite (distinct_go_In A eqb H). simpl. tauto.
  - intros l1 l2 ->. apply distinct_go_prefix.
Qed.

Lemma distinct_spec_witness :
  Util.distinct Z Z.eqb [1; 2; 1; 3; 4; 4] = [1; 2; 3; 4]
  /\ NoDup (Util.distinct Z Z.eqb [1; 2; 1; 3; 4; 4]).
Proof.
  split; [reflexivity|].
  apply (distinct_spec Z Z.eqb [1; 2; 1; 3; 4; 4]).
  intros x y. apply Z.eqb_eq.
Defined.

(** ** [normalize] and [denormalize] on one line *)

Lemma splitlines_one_line (keepends : bool) (s : str) :
  forall cur,
    forallb (fun c => negb (is_linebreak c)) s = true ->
    rev cur ++ s <> [] ->
    splitlines_go keepends cur s = [rev cur ++ s].
Proof.
  induction s as [|c s IH]; intros cur Hs Hne.
  - rewrite app_nil_r in *. cbn [splitlines_go].
    destruct cur as [|x cur]; [contradiction|reflexivity].
  - cbn [forallb] in Hs. apply andb_true_iff in Hs. destruct Hs as [Hc Hs].
    apply negb_true_iff in Hc. cbn [splitlines_go].
    assert (H13 : (c =? 13) = false).
    { destruct (Z.eqb_spec c 13) as [->|]; [discriminate Hc|reflexivity]. }
    rewrite H13, Hc. rewrite (IH (c :: cur) Hs).
    + cbn [rev]. rewrite <- app_assoc. reflexivity.
    + cbn [rev]. rewrite <- app_assoc. cbn [app].
      intros E. apply app_eq_nil in E. destruct E as [_ E]. discriminate E.
Qed.

Lemma slice_between {A} (pre x : list A) (e : A) :
  slice (pre ++ x ++ [e]) (Some (len pre)) (Some (-1)) = x.
Proof.
  unfold slice, clamp_index, len.
  rewrite !length_app. cbn [List.length].
  change (-1 <? 0) with true. cbv iota.
  rewrite (proj2 (Z.ltb_ge (Z.of_nat (List.length pre)) 0)) by lia.
  replace (Z.to_nat (Z.min (Z.of_nat (List.length pre))
             (Z.of_nat (List.length pre + (List.length x + 1)))))
    with (List.length pre) by lia.
  replace (Z.to_nat (Z.max 0 (Z.of_nat (List.length pre + (List.length x + 1)) + -1)
             - Z.min (Z.of_nat (List.length pre))
                 (Z.of_nat (List.length pre + (List.length x + 1)))))
    with (List.length x + 0)%nat by lia.
  rewrite skipn_app, skipn_all, Nat.sub_diag. cbn [skipn app].
  rewrite firstn_app_2. simpl.
  apply app_nil_r.
Qed.

Lemma replace_go_absent (a b : Z) (rest new s : list Z) :
  ~ In b s -> replace_go (a :: b :: rest) new 0 s = s.
Proof.
  induction s as [|x s IH]; intros H; [reflexivity|].
  cbn [replace_go].
  assert (Hx : startswith (x :: s) (a :: b :: rest) = false).
  { destruct s as [|y s]; cbn [startswith]; [apply andb_false_r|].
    rewrite (proj2 (Z.eqb_neq b y)).
    - apply andb_false_r.
    - intros ->. apply H. right. left. reflexivity. }
  rewrite Hx, IH; [reflexivity|].
  intros Hin. apply H. right. exact Hin.
Qed.

Lemma inline_char_cases (c : char) :
  inline_char c = true ->
  is_linebreak c = false /\ c <> 9 /\ c <> 13 /\ c <> 10.
Proof.
  unfold inline_char. intros H. apply andb_true_iff in H.
  destruct H as [H1 H2]. apply negb_true_iff in H1, H2.
  apply Z.eqb_neq in H2. repeat split; try assumption.
  - intros ->. discriminate H1.
  - intros ->. discriminate H1.
Qed.

Lemma plain_char_cases (c : char) :
  plain_char c = true -> inline_char c = true /\ c <> 92 /\ c <> 34.
Proof.
  unfold plain_char. intros H. apply andb_true_iff in H.
  destruct H as [H H3]. apply andb_true_iff in H. destruct H as [H1 H2].
  apply negb_true_iff in H2, H3. apply Z.eqb_neq in H2, H3. tauto.
Qed.

Lemma escape_char_plain (c : char) :
  plain_char c = true -> escape_char c = [c].
Proof.
  intros H. apply plain_char_cases in H. destruct H as [H [H92 H34]].
  apply inline_char_cases in H. destruct H as [_ [H9 [H13 H10]]].
  unfold escape_char.
  rewrite (proj2 (Z.eqb_neq c 92)), (proj2 (Z.eqb_neq c 9)),
    (proj2 (Z.eqb_neq c 13)), (proj2 (Z.eqb_neq c 10)),
    (proj2 (Z.eqb_neq c 34)) by assumption.
  reflexivity.
Qed.

Lemma unescaped_inline (s : str) :
  forallb inline_char s = true -> flat_map unescaped_char s = s.
Proof.
  induction s as [|c s IH]; [reflexivity|].
  cbn [forallb flat_map]. intros H. apply andb_true_iff in H.
  destruct H as [Hc Hs]. rewrite (IH Hs).
  apply inline_char_cases in Hc. destruct Hc as [_ [H9 [H13 H10]]].
  unfold unescaped_char.
  rewrite (proj2 (Z.eqb_neq c 9)), (proj2 (Z.eqb_neq c 13)),
    (proj2 (Z.eqb_neq c 10)) by assumption.
  reflexivity.
Qed.

Lemma inline_no_linebreak (s : str) :
  forallb inline_char s = true ->
  forallb (fun c => negb (is_linebreak c)) s = true.
Proof.
  induction s as [|c s IH]; [reflexivity|].
  cbn [forallb]. intros H. apply andb_true_iff in H. destruct H as [Hc Hs].
  rewrite (IH Hs). apply inline_char_cases in Hc. destruct Hc as [Hc _].
  rewrite Hc. reflexivity.
Qed.

(** A string of one line that is not wrapped is written as the empty
    string, a newline and the escaped string. *)
Lemma normalize_one_line (s prefix : str) (width : option Z) :
  forallb (fun c => negb (is_linebreak c)) s = true ->
  s <> [] ->
  no_wrapping prefix s width ->
  normalize s prefix width = [34; 34; 10] ++ escape s.
Proof.
  intros Hs Hne Hw.
  assert (Hl : splitlines s true = [s]).
  { unfold splitlines. apply (splitlines_one_line true s [] Hs). exact Hne. }
  assert (Hn : normalize s prefix None = [34; 34; 10] ++ escape s).
  { unfold normalize. rewrite Hl. cbn [map join].
    rewrite escape_chars.
    change ([34] ++ flat_map escape_char s ++ [34])
      with (34 :: flat_map escape_char s ++ [34]).
    rewrite slice_inner. reflexivity. }
  destruct width as [w|]; [|exact Hn].
  rewrite <- Hn. unfold normalize.
  destruct (negb (w =? 0) && (w >? 0)) eqn:E; [|reflexivity].
  apply andb_true_iff in E. destruct E as [_ E].
  rewrite Z.gtb_ltb in E. apply Z.ltb_lt in E.
  cbn [no_wrapping] in Hw. destruct Hw as [Hw|[-> Hw]]; [lia|].
  rewrite Hl. cbn [fold_left]. unfold wrap_line. cbn [app].
  rewrite Z.gtb_ltb. rewrite (proj2 (Z.ltb_ge w (len s))) by lia.
  cbn [join]. rewrite !Hl. reflexivity.
Qed.

(** X20.  For a string of one line that ends in a plain character and is
    not wrapped, [denormalize] after [normalize] gives the string
    without its last character: [normalize] ends its result with the
    closing quote, not with a newline, so [denormalize] cuts the quote
    and [unescape] the character before it. *)
Theorem denormalize_normalize_drops_last (s : str) (c : char)
    (prefix : str) (width : option Z) :
  forallb inline_char s = true ->
  plain_char c = true ->
  no_wrapping prefix (s ++ [c]) width ->
  denormalize (normalize (s ++ [c]) prefix width) = s.
Proof.
  intros Hs Hc Hw.
  pose proof (plain_char_cases c Hc) as [Hi [H92 H34]].
  rewrite normalize_one_line; [| |intros E; destruct s; discriminate E|exact Hw].
  2:{ rewrite forallb_app, (inline_no_linebreak s Hs). cbn [forallb].
      apply inline_char_cases in Hi. destruct Hi as [-> _]. reflexivity. }
  rewrite escape_chars, flat_map_app. cbn [flat_map].
  rewrite (escape_char_plain c Hc), app_nil_r.
  set (E := flat_map escape_char s).
  unfold denormalize.
  change (startswith ([34; 34; 10] ++ [34] ++ (E ++ [c]) ++ [34]) [34; 34])
    with true. cbv iota.
  match goal with
  | |- context [slice ?l (Some 3) (Some (-1))] =>
    change (slice l (Some 3) (Some (-1)))
      with (slice ([34; 34; 10] ++ ([34] ++ E ++ [c]) ++ [34])
                  (Some (len [34; 34; 10])) (Some (-1)))
  end.
  rewrite (slice_between [34; 34; 10] ([34] ++ E ++ [c]) 34).
  unfold replace at 1.
  rewrite replace_go_absent.
  - unfold unescape.
    change ([34] ++ E ++ [c]) with (34 :: E ++ [c]).
    rewrite slice_inner.
    change (u "\\") with [92; 92]. change (u "\") with [92].
    unfold replace, E.
    rewrite unescape_backslashes, unescape_quotes.
    apply unescaped_inline, Hs.
  - intros Hin. cbn [app] in Hin. destruct Hin as [Hin|Hin]; [discriminate|].
    apply in_app_or in Hin. destruct Hin as [Hin|[Hin|[]]].
    + apply escaped_no_control in Hin. discriminate Hin.
    + apply inline_char_cases in Hi. destruct Hi as [_ [_ [_ H10]]].
      congruence.
Qed.

Lemma denormalize_normalize_drops_last_witness :
  denormalize (normalize (u "a\b " ++ [34] ++ u "c" ++ [34] ++ u "!") []
                 (Some 76))
  = u "a\b " ++ [34] ++ u "c" ++ [34].
Proof.
  apply (denormalize_normalize_drops_last
           (u "a\b " ++ [34] ++ u "c" ++ [34]) 33 [] (Some 76)).
  - reflexivity.
  - reflexivity.
  - right. split; [reflexivity|]. vm_compute. discriminate.
Defined.

(** ** [write_mo]: plural ids and empty output *)

Lemma encode_id_plural (m : Message) :
  is_plural m = true -> exists e, encode_id m = Raise e.
Proof.
  unfold is_plural, encode_id. intros H.
  destruct (id m) as [i|a b]; [discriminate H|].
  destruct (context m) as [[|c0 c]|]; eexists; reflexivity.
Qed.

Lemma collect_plural (use_fuzzy : bool) (m : Message)
    (messages : list Message) :
  In m messages -> written use_fuzzy m = true -> is_plural m = true ->
  forall ids strs offsets,
    exists e, collect use_fuzzy messages ids strs offsets = Raise e.
Proof.
  intros Hin Hw Hp.
  induction messages as [|x rest IH]; [destruct Hin|].
  intros ids strs offsets. cbn [collect].
  destruct Hin as [->|Hin].
  - unfold written in Hw. apply negb_true_iff in Hw. rewrite Hw.
    destruct (encode_id_plural m Hp) as [e E]. rewrite E.
    exists e. reflexivity.
  - destruct (negb (id_truthy (id x)) || (negb use_fuzzy && fuzzy x)
              || negb (string_truthy (string x))); [apply (IH Hin)|].
    destruct (encode_id x) as [i|e]; [|exists e; reflexivity].
    destruct (encode_string x) as [s|e]; [|exists e; reflexivity].
    cbn [bind]. apply (IH Hin).
Qed.

(** X21.  [write_mo] raises, and writes nothing, whenever one of the
    messages that it does not skip has a plural id: it calls [encode] on
    the tuple (or concatenates the context and the tuple). *)
Theorem write_mo_plural_raises (message_sort : list Message -> list Message)
    (catalog : Catalog) (use_fuzzy : bool) (m : Message) :
  In m (message_sort catalog) ->
  written use_fuzzy m = true ->
  is_plural m = true ->
  exists e, write_mo message_sort catalog use_fuzzy = Raise e.
Proof.
  intros Hin Hw Hp. unfold write_mo.
  destruct (collect_plural use_fuzzy m _ Hin Hw Hp [] [] []) as [e E].
  rewrite E. exists e. reflexivity.
Qed.

Lemma write_mo_plural_raises_witness :
  exists e,
    write_mo (fun l => l) [message_foo; message_bar] false = Raise e.
Proof.
  apply (write_mo_plural_raises (fun l => l) [message_foo; message_bar]
           false message_bar).
  - right. left. reflexivity.
  - reflexivity.
  - reflexivity.
Defined.

Lemma collect_nothing (use_fuzzy : bool) (messages : list Message) :
  filter (written use_fuzzy) messages = [] ->
  forall ids strs offsets,
    collect use_fuzzy messages ids strs offsets = Ok (ids, strs, offsets).
Proof.
  induction messages as [|x rest IH]; intros H ids strs offsets;
    [reflexivity|].
  cbn [filter] in H. cbn [collect]. unfold written at 1 in H.
  destruct (negb (id_truthy (id x)) || (negb use_fuzzy && fuzzy x)
            || negb (string_truthy (string x))).
  - apply IH. exact H.
  - discriminate H.
Qed.

(** X22.  When every message of the catalog is skipped (empty id, fuzzy
    without [use_fuzzy], or empty translation), [write_mo] writes the 28
    octets of the header alone, and [read_mo] reads them back as the
    empty catalog. *)
Theorem write_mo_nothing_written
    (message_sort : list Message -> list Message)
    (catalog : Catalog) (use_fuzzy : bool) :
  filter (written use_fuzzy) (message_sort catalog) = [] ->
  exists out,
    write_mo message_sort catalog use_fuzzy = Ok out
    /\ len out = 28
    /\ read_mo out = Ok [].
Proof.
  intros H. unfold write_mo.
  rewrite (collect_nothing use_fuzzy _ H). cbn [bind].
  eexists. split; [vm_compute; reflexivity|].
  split; vm_compute; reflexivity.
Qed.

Lemma write_mo_nothing_written_witness :
  exists out,
    write_mo (fun l => l)
      [mkMessage (Singular (u "fuz")) (Single (u "Futz")) None [u "fuzzy"];
       mkMessage (Singular (u "Fizz")) (Single []) None []] false = Ok out
    /\ len out = 28
    /\ read_mo out = Ok [].
Proof.
  apply write_mo_nothing_written. reflexivity.
Defined.

(** ** [read_po] *)

(** X23.  [read_po] returns for no file: [PoFileParser.__init__] calls
    [self._reset_message_state()], which neither the class nor the
    instance defines, so the constructor raises [AttributeError] before
    a line is read. *)
Theorem read_po_attribute_error (lines : list str)
    (ignore_obsolete abort_invalid : bool) :
  PofileReader.read_po lines ignore_obsolete abort_invalid
  = Raise (AttributeError
             (u "'PoFileParser' object has no attribute '_reset_message_state'")).
Proof. reflexivity. Qed.
